(** * PackedDB: a database operating on a set of object packs

    Shallow embedding of [db/pack.py] (class [PackedDB]) and proofs about
    its lookup, counting and cache-update methods.

    Python values are modelled as follows: [str] (byte strings, used for
    shas and paths) as [string]; unbounded [int] as [Z]; the modification
    time as [Z] (only [<=] and assignment are applied to it); the list
    [_entities] of three-element lists as [list Item]; a [set] of paths
    as [gset string]; an exception as the left injection of a sum, the
    state reached when it was raised being kept. *)

From Stdlib Require Import ZArith Lia Ascii String.
From stdpp Require Import base list strings gmap sorting.

Local Open Scope Z_scope.

(** ** Exceptions *)

Inductive Exception : Type :=
  | BadObject (sha : string)
  | UnsupportedOperation
  | NotImplementedError
  | AssertionError
  | AttributeError
  | TypeError.

Definition Result (A : Type) : Type := (Exception + A)%type.

(** ** The pack entity contract *)

Record OInfo := mkOInfo { kind : string; osize : Z }.

(** Modelled from the spec: the classes [PackFile], [PackIndexFile] and
    [PackEntity] of [gitdb.pack] are imported by the source and are not
    part of it.  The records carry the ArchiveUnit contract of the spec
    (section 6), under the names the source calls: [pack().path()],
    [pack().size()], [index().sha_to_index], [index().size()],
    [index().sha], [info_at_index], [stream_at_index]. *)
Module PackFile.
Record t := mk { path : string; size : Z }.
End PackFile.

Module PackIndexFile.
Record t := mk {
  sha_to_index : string -> option Z;
  size : Z;
  sha : Z -> string }.
End PackIndexFile.

Module PackEntity.
Record t := mk {
  pack : PackFile.t;
  index : PackIndexFile.t;
  info_at_index : Z -> OInfo;
  stream_at_index : Z -> string }.
End PackEntity.

(** ** The root directory as the methods observe it *)

Record PackData := mkPackData {
  data_size : Z;
  data_index : PackIndexFile.t;
  data_info : Z -> OInfo;
  data_stream : Z -> string }.

(** [st_mtime]: what [os.stat(self.root_path()).st_mtime] reads;
    [glob_result]: what [glob.glob(os.path.join(root, "pack-*.pack"))]
    returns; [read_pack]: what the files behind a pack path hold.  A
    [Dir] is a root directory that [os.stat] can read: the [OSError] of
    a missing or unreadable root is not among the outcomes modelled, and
    what is proved of a call that stats the directory is proved for such
    directories. *)
Record Dir := mkDir {
  st_mtime : Z;
  glob_result : list string;
  read_pack : string -> PackData }.

(** Modelled from the spec: the constructor [PackEntity(pack_file)] of
    [gitdb.pack] is not under src/.  The spec (4.2, step 4) has it
    construct a unit bound to that path, so that [pack().path()] is the
    path it was given; the rest is read from the files. *)
Definition PackEntity_init (d : Dir) (pack_file : string) : PackEntity.t :=
  let f := read_pack d pack_file in
  PackEntity.mk (PackFile.mk pack_file (data_size f)) (data_index f)
                (data_info f) (data_stream f).

(** Calls into the operating system, recorded in the order they happen. *)
Inductive Syscall : Type :=
  | sys_stat
  | sys_glob
  | sys_open (pack_file : string).

(** ** Hash normalisation *)

Definition hex_digit (c : ascii) : option N :=
  let n := N_of_ascii c in
  if ((48 <=? n) && (n <=? 57))%N then Some (n - 48)%N
  else if ((97 <=? n) && (n <=? 102))%N then Some (n - 87)%N
  else if ((65 <=? n) && (n <=? 70))%N then Some (n - 55)%N
  else None.

Fixpoint hex_to_bin (s : string) : option string :=
  match s with
  | EmptyString => Some EmptyString
  | String _ EmptyString => None
  | String c1 (String c2 rest) =>
      match hex_digit c1, hex_digit c2, hex_to_bin rest with
      | Some h, Some l, Some r => Some (String (ascii_of_N (16 * h + l)) r)
      | _, _, _ => None
      end
  end.

Definition hex_char (n : N) : ascii :=
  if (n <? 10)%N then ascii_of_N (48 + n) else ascii_of_N (87 + n).

Fixpoint bin_to_hex (s : string) : string :=
  match s with
  | EmptyString => EmptyString
  | String c rest =>
      let n := N_of_ascii c in
      String (hex_char (n / 16)) (String (hex_char (n mod 16)) (bin_to_hex rest))
  end.

(** Modelled from the spec: [to_bin_sha] of [gitdb.util] is imported by
    the source and is not part of it.  The spec (section 6, hash
    representation) has an input arrive in the compact binary form or in
    the expanded hexadecimal form and be normalised to binary; the
    docstring of [_pack_info] gives the two lengths, 20 and 40 bytes.  A
    string of 20 bytes is taken as binary; any other one is decoded as
    hexadecimal, which fails on a string that is not hexadecimal. *)
Definition to_bin_sha (sha : string) : Result string :=
  if Nat.eqb (String.length sha) 20 then inr sha
  else match hex_to_bin sha with
       | Some b => inr b
       | None => inl TypeError
       end.

(** ** The object *)

(** One element of [_entities]: the list [[hits, entity, sha_to_index]]. *)
Record Item := mkItem {
  item_hits : Z;
  item_entity : PackEntity.t;
  item_sha_to_index : string -> option Z }.

Definition item_path (item : Item) : string :=
  PackFile.path (PackEntity.pack (item_entity item)).

(** [_entities] is [None] until [LazyMixin] has set the attribute. *)
Record PackedDB := mkPackedDB {
  _entities : option (list Item);
  _hit_count : Z;
  _st_mtime : Z }.

Definition _sort_interval : Z := 500.

Definition __init__ : PackedDB :=
  {| _entities := None; _hit_count := 0; _st_mtime := 0 |}.

Record World := mkWorld { self : PackedDB; trace : list Syscall }.

(** ** A state and exception monad *)

Definition M (A : Type) : Type := World -> Result A * World.

Definition ret {A} (a : A) : M A := fun w => (inr a, w).
Definition raise {A} (e : Exception) : M A := fun w => (inl e, w).
Definition bind {A B} (m : M A) (k : A -> M B) : M B :=
  fun w => match m w with
           | (inr a, w') => k a w'
           | (inl e, w') => (inl e, w')
           end.

Declare Scope py_scope.
Delimit Scope py_scope with py.
Notation "'let*' x ':=' m 'in' k" := (bind m (fun x => k))
  (at level 10, x name, m at level 100, k at level 200) : py_scope.
Notation "'run' m 'in' k" := (bind m (fun _ => k))
  (at level 10, m at level 100, k at level 200) : py_scope.
Local Open Scope py_scope.

Definition lift {A} (r : Result A) : M A := fun w => (r, w).

(** [try: m except ...: h]: [h] says which exceptions are caught. *)
Definition try_except {A} (m : M A) (h : Exception -> option (M A)) : M A :=
  fun w => match m w with
           | (inl e, w') => match h e with
                            | Some k => k w'
                            | None => (inl e, w')
                            end
           | r => r
           end.

Definition get_self : M PackedDB := fun w => (inr (self w), w).
Definition modify_self (f : PackedDB -> PackedDB) : M unit :=
  fun w => (inr tt, mkWorld (f (self w)) (trace w)).
Definition emit (c : Syscall) : M unit :=
  fun w => (inr tt, mkWorld (self w) (trace w ++ [c])).

Definition set_entities (es : list Item) : M unit :=
  modify_self (fun s => mkPackedDB (Some es) (_hit_count s) (_st_mtime s)).
Definition set_hit_count (n : Z) : M unit :=
  modify_self (fun s => mkPackedDB (_entities s) n (_st_mtime s)).
Definition set_st_mtime (t : Z) : M unit :=
  modify_self (fun s => mkPackedDB (_entities s) (_hit_count s) t).

Definition assert (b : bool) : M unit :=
  if b then ret tt else raise AssertionError.

Fixpoint for_each {A} (l : list A) (body : A -> M unit) : M unit :=
  match l with
  | [] => ret tt
  | x :: l' => run body x in for_each l' body
  end.

Definition os_stat (d : Dir) : M Z := run emit sys_stat in ret (st_mtime d).
Definition glob_glob (d : Dir) : M (list string) :=
  run emit sys_glob in ret (glob_result d).
Definition PackEntity_ (d : Dir) (pack_file : string) : M PackEntity.t :=
  run emit (sys_open pack_file) in ret (PackEntity_init d pack_file).

(** ** Pure helpers of the methods *)

(** [list.sort(key=lambda l: l[0], reverse=True)]: descending by hits
    and stable, an element staying ahead of the later ones of its key. *)
Fixpoint sort_insert (x : Item) (l : list Item) : list Item :=
  match l with
  | [] => [x]
  | y :: l' =>
      if item_hits x <? item_hits y then y :: sort_insert x l' else x :: l
  end.

Definition sort_by_hits (l : list Item) : list Item := foldr sort_insert [] l.

Definition hit (item : Item) : Item :=
  mkItem (item_hits item + 1) (item_entity item) (item_sha_to_index item).

(** The loop of [_pack_info]: the entity and index of the first item whose
    lookup answers, and the list with that item's counter incremented. *)
Fixpoint pack_scan (sha : string) (items : list Item)
  : option ((PackEntity.t * Z) * list Item) :=
  match items with
  | [] => None
  | item :: rest =>
      match item_sha_to_index item sha with
      | Some index => Some ((item_entity item, index), hit item :: rest)
      | None =>
          match pack_scan sha rest with
          | Some (r, rest') => Some (r, item :: rest')
          | None => None
          end
      end
  end.

(** The list [[entity.pack().size(), entity, entity.index().sha_to_index]]
    appended for a new pack. *)
Definition new_item (entity : PackEntity.t) : Item :=
  mkItem (PackFile.size (PackEntity.pack entity)) entity
         (PackIndexFile.sha_to_index (PackEntity.index entity)).

(** The inner loop of the removal step: the position of the first item
    at [pack_file], counted from [i], or -1. *)
Fixpoint find_del_index (pack_file : string) (i : Z) (items : list Item) : Z :=
  match items with
  | [] => -1
  | item :: rest =>
      if bool_decide (item_path item = pack_file) then i
      else find_del_index pack_file (i + 1) rest
  end.

(** Python 2 [reduce(f, l)] with no initial value. *)
Definition reduce {A} (f : A -> A -> A) (l : list A) : Result A :=
  match l with
  | [] => inl TypeError
  | x :: l' => inr (fold_left f l' x)
  end.

(** The order in which a [for] loop runs over a [set]: some order of its
    elements, each once. *)
Class SetIter := {
  set_iter : gset string -> list string;
  set_iter_perm : forall X, set_iter X ≡ₚ elements X }.

(** ** The methods *)

(** The bodies of the methods, over the way the attribute [_entities] is
    read. *)
Module Body.
Section Methods.

Context `{SetIter}.

(** Reading the attribute [self._entities]. *)
Variable entities_attr : M (list Item).

Definition _sort_entities : M unit :=
  let* es := entities_attr in
  set_entities (sort_by_hits es).

Definition _pack_info (sha : string) : M (PackEntity.t * Z) :=
  let* s := get_self in
  run (if bool_decide (_hit_count s `mod` _sort_interval = 0)
       then _sort_entities else ret tt) in
  let* sha := lift (to_bin_sha sha) in
  let* es := entities_attr in
  match pack_scan sha es with
  | Some (r, es') =>
      run set_entities es' in
      let* s := get_self in
      run set_hit_count (_hit_count s + 1) in
      ret r
  | None => raise (BadObject sha)
  end.

Definition has_object (sha : string) : M bool :=
  try_except (run _pack_info sha in ret true)
             (fun e => match e with
                       | BadObject _ => Some (ret false)
                       | _ => None
                       end).

Definition info (sha : string) : M OInfo :=
  let* r := _pack_info sha in
  let '(entity, index) := r in
  ret (PackEntity.info_at_index entity index).

Definition stream (sha : string) : M string :=
  let* r := _pack_info sha in
  let '(entity, index) := r in
  ret (PackEntity.stream_at_index entity index).

Definition update_pack_entity_cache (d : Dir) (force : bool) : M bool :=
  let* stat := os_stat d in
  let* s := get_self in
  if negb force && bool_decide (stat <= _st_mtime s) then ret false
  else
    run set_st_mtime stat in
    let* files := glob_glob d in
    let pack_files : gset string := list_to_set files in
    let* es := entities_attr in
    let our_pack_files : gset string := list_to_set (map item_path es) in
    run for_each (set_iter (pack_files ∖ our_pack_files)) (fun pack_file =>
      let* entity := PackEntity_ d pack_file in
      let* es := entities_attr in
      set_entities (es ++ [new_item entity])) in
    run for_each (set_iter (our_pack_files ∖ pack_files)) (fun pack_file =>
      let* es := entities_attr in
      let del_index := find_del_index pack_file 0 es in
      run assert (bool_decide (del_index ≠ -1)) in
      set_entities (delete (Z.to_nat del_index) es)) in
    run _sort_entities in
    ret true.

Definition entities : M (list PackEntity.t) :=
  let* es := entities_attr in
  ret (map item_entity es).

(** [xrange(n)]. *)
Definition xrange (n : Z) : list Z := map Z.of_nat (seq 0 (Z.to_nat n)).

(** The generator [sha_iter], run to its end. *)
Definition sha_iter : M (list string) :=
  let* ents := entities in
  ret (flat_map (fun entity =>
         let index := PackEntity.index entity in
         let sha_by_index := PackIndexFile.sha index in
         map sha_by_index (xrange (PackIndexFile.size index))) ents).

Definition size : M Z :=
  let* es := entities_attr in
  let sizes :=
    map (fun item => PackIndexFile.size (PackEntity.index (item_entity item))) es in
  lift (reduce Z.add sizes).

End Methods.
End Body.

(** ** The attribute [_entities] and the methods on it *)

(** Reading [_entities] once the attribute is set. *)
Definition entities_loaded : M (list Item) :=
  let* s := get_self in
  match _entities s with
  | Some es => ret es
  | None => raise AttributeError
  end.

Section PackedDB.

Context `{SetIter}.

(** [_set_cache_] sets the attribute before it calls
    [update_pack_entity_cache], which therefore reads it as set. *)
Definition _set_cache_ (d : Dir) : M unit :=
  run set_entities [] in
  run Body.update_pack_entity_cache entities_loaded d false in
  ret tt.

(** Modelled from the spec: [LazyMixin] of [gitdb.util] is imported by
    the source and is not part of it.  The spec (section 3, lifecycle)
    has the list built on first use: reading the attribute while it is
    missing runs [_set_cache_] first. *)
Definition entities_attr (d : Dir) : M (list Item) :=
  let* s := get_self in
  match _entities s with
  | Some es => ret es
  | None => run _set_cache_ d in entities_loaded
  end.

Definition _sort_entities (d : Dir) : M unit :=
  Body._sort_entities (entities_attr d).

Definition _pack_info (d : Dir) (sha : string) : M (PackEntity.t * Z) :=
  Body._pack_info (entities_attr d) sha.

Definition has_object (d : Dir) (sha : string) : M bool :=
  Body.has_object (entities_attr d) sha.

Definition info (d : Dir) (sha : string) : M OInfo :=
  Body.info (entities_attr d) sha.

Definition stream (d : Dir) (sha : string) : M string :=
  Body.stream (entities_attr d) sha.

Definition update_pack_entity_cache (d : Dir) (force : bool) : M bool :=
  Body.update_pack_entity_cache (entities_attr d) d force.

Definition entities (d : Dir) : M (list PackEntity.t) :=
  Body.entities (entities_attr d).

Definition sha_iter (d : Dir) : M (list string) :=
  Body.sha_iter (entities_attr d).

Definition size (d : Dir) : M Z :=
  Body.size (entities_attr d).

End PackedDB.

Definition store {IStream : Type} (istream : IStream) : M IStream :=
  raise UnsupportedOperation.

Definition store_async {Reader : Type} (reader : Reader) : M unit :=
  raise NotImplementedError.

(** ** Example data *)

#[local] Instance elements_iter : SetIter :=
  {| set_iter := elements; set_iter_perm := fun X => Permutation_refl _ |}.

(** An index over the listed shas, in their order. *)
Fixpoint index_of (shas : list string) (i : Z) (sha : string) : option Z :=
  match shas with
  | [] => None
  | x :: rest => if bool_decide (x = sha) then Some i else index_of rest (i + 1) sha
  end.

Definition example_index (shas : list string) : PackIndexFile.t :=
  PackIndexFile.mk (index_of shas 0) (Z.of_nat (length shas))
                   (fun i => nth (Z.to_nat i) shas EmptyString).

Definition example_data (bytes : Z) (shas : list string) : PackData :=
  mkPackData bytes (example_index shas)
             (fun i => mkOInfo "blob" i) (fun i => EmptyString).

Definition sha_a : string := "aaaaaaaaaaaaaaaaaaaa".
Definition sha_b : string := "bbbbbbbbbbbbbbbbbbbb".
Definition sha_c : string := "cccccccccccccccccccc".
Definition hex_a : string := "6161616161616161616161616161616161616161".

Definition pack_1 : string := "objects/pack/pack-1.pack".
Definition pack_2 : string := "objects/pack/pack-2.pack".

Definition example_disk (pack_file : string) : PackData :=
  if bool_decide (pack_file = pack_1) then example_data 100 [sha_a; sha_b]
  else if bool_decide (pack_file = pack_2) then example_data 700 [sha_a; sha_c]
  else example_data 0 [].

Definition dir_empty : Dir := mkDir 10 [] example_disk.
Definition dir_one : Dir := mkDir 20 [pack_1] example_disk.
Definition dir_two : Dir := mkDir 30 [pack_1; pack_2] example_disk.

Definition fresh_world : World := mkWorld __init__ [].

(** The state in which a call leaves the world. *)
Definition after {A} (m : M A) (w : World) : World := snd (m w).

Definition sha_d : string := "dddddddddddddddddddd".

(** The object after its first update, in the directory of two packs. *)
Definition world_two : World :=
  after (update_pack_entity_cache dir_two false) fresh_world.

Definition item_1 : Item := new_item (PackEntity_init dir_two pack_1).
Definition item_2 : Item := new_item (PackEntity_init dir_two pack_2).

(** ** What the methods compute, as functions of the list *)

(** The list as the loop of [_pack_info] meets it: re-sorted first when
    the global hit counter is a multiple of the sort interval. *)
Definition scan_order (hit_count : Z) (es : list Item) : list Item :=
  if bool_decide (hit_count `mod` _sort_interval = 0) then sort_by_hits es else es.

Definition resolves (sha : string) (item : Item) : bool :=
  match item_sha_to_index item sha with Some _ => true | None => false end.

(** One pass of the removal loop: the item found is deleted; where the
    assertion fails the list is as it was. *)
Definition remove_pack (es : list Item) (pack_file : string) : list Item :=
  let del_index := find_del_index pack_file 0 es in
  if bool_decide (del_index ≠ -1) then delete (Z.to_nat del_index) es else es.

Section Reconciled.
Context `{SetIter}.

Definition added_packs (d : Dir) (es : list Item) : list string :=
  set_iter (list_to_set (glob_result d) ∖ list_to_set (map item_path es)).

Definition removed_packs (d : Dir) (es : list Item) : list string :=
  set_iter (list_to_set (map item_path es) ∖ list_to_set (glob_result d)).

(** The list an update that is not skipped leaves behind. *)
Definition reconciled (d : Dir) (es : list Item) : list Item :=
  sort_by_hits
    (foldl remove_pack
       (es ++ map (fun p => new_item (PackEntity_init d p)) (added_packs d es))
       (removed_packs d es)).

(** The registered items: [_entities] as a method reads it. *)
Definition registered (d : Dir) (w : World) : list Item :=
  match fst (entities_attr d w) with
  | inr es => es
  | inl _ => []
  end.

(** The state after the attribute was read. *)
Definition loaded (d : Dir) (w : World) : World := snd (entities_attr d w).
End Reconciled.

(** The object counts [size] adds up. *)
Definition index_sizes (es : list Item) : list Z :=
  map (fun item => PackIndexFile.size (PackEntity.index (item_entity item))) es.

(** The order the sort establishes. *)
Definition hits_ge (a b : Item) : Prop := item_hits b <= item_hits a.

(** The test that lets an update return at once. *)
Definition gated (d : Dir) (force : bool) (w : World) : bool :=
  negb force && bool_decide (st_mtime d <= _st_mtime (self w)).

(** The state in which an update that is not skipped reads the
    attribute. *)
Definition scanned (d : Dir) (w : World) : World :=
  mkWorld (mkPackedDB (_entities (self w)) (_hit_count (self w)) (st_mtime d))
          ((trace w ++ [sys_stat]) ++ [sys_glob]).

(** The list the attribute holds, none being registered before it is
    set. *)
Definition current (w : World) : list Item :=
  match _entities (self w) with
  | Some es => es
  | None => []
  end.

(** The nested [os.stat] of [_set_cache_], when the update is what sets
    the attribute. *)
Definition lazy_stat (w : World) : list Syscall :=
  match _entities (self w) with
  | Some _ => []
  | None => [sys_stat]
  end.

Definition paths_distinct (w : World) : Prop :=
  match _entities (self w) with
  | Some es => NoDup (map item_path es)
  | None => True
  end.

(** The calls a client can make. *)
Inductive Call : Type :=
  | call_pack_info (sha : string)
  | call_has_object (sha : string)
  | call_info (sha : string)
  | call_stream (sha : string)
  | call_store (istream : string)
  | call_store_async (reader : string)
  | call_update_pack_entity_cache (force : bool)
  | call_entities
  | call_sha_iter
  | call_size.

Definition run_call `{SetIter} (d : Dir) (c : Call) (w : World) : World :=
  match c with
  | call_pack_info sha => after (_pack_info d sha) w
  | call_has_object sha => after (has_object d sha) w
  | call_info sha => after (info d sha) w
  | call_stream sha => after (stream d sha) w
  | call_store istream => after (store istream) w
  | call_store_async reader => after (store_async reader) w
  | call_update_pack_entity_cache force => after (update_pack_entity_cache d force) w
  | call_entities => after (entities d) w
  | call_sha_iter => after (sha_iter d) w
  | call_size => after (size d) w
  end.

(** The states of an object from its construction on, each call seeing
    the directory and the set order of its moment. *)
Inductive reachable : World -> Prop :=
  | reachable_init : reachable fresh_world
  | reachable_call (I : SetIter) (d : Dir) (c : Call) (w : World) :
      reachable w -> reachable (run_call d c w).

(** ** Notions for the further results *)

(** The item's pack file is among the files the directory lists. *)
Definition on_disk (d : Dir) (item : Item) : Prop :=
  item_path item ∈ glob_result d.

#[global] Instance on_disk_dec d item : Decision (on_disk d item) :=
  decide (item_path item ∈ glob_result d).

(** The items an update appends, in the order it appends them. *)
Definition added_items `{SetIter} (d : Dir) (es : list Item) : list Item :=
  map (fun p => new_item (PackEntity_init d p)) (added_packs d es).

(** The sum of the object counts of the items. *)
Definition total_objects (es : list Item) : Z := foldr Z.add 0 (index_sizes es).

(** The shas the index of an item lists, position by position. *)
Definition item_shas (item : Item) : list string :=
  let index := PackEntity.index (item_entity item) in
  map (PackIndexFile.sha index) (Body.xrange (PackIndexFile.size index)).

(** The world with its list replaced. *)
Definition with_entities (es : list Item) (w : World) : World :=
  mkWorld (mkPackedDB (Some es) (_hit_count (self w)) (_st_mtime (self w)))
          (trace w).

(** One pass of the removal loop of [update_pack_entity_cache], as the
    method runs it: the search, the assertion, the deletion. *)
Definition removal_step `{SetIter} (d : Dir) (pack_file : string) : M unit :=
  let* es := entities_attr d in
  let del_index := find_del_index pack_file 0 es in
  run assert (bool_decide (del_index ≠ -1)) in
  set_entities (delete (Z.to_nat del_index) es).

(** A third pack file, of no object, and the object after its first
    update in the directory of the three packs. *)
Definition pack_3 : string := "objects/pack/pack-3.pack".
Definition dir_three : Dir := mkDir 40 [pack_1; pack_2; pack_3] example_disk.
Definition world_three : World :=
  after (update_pack_entity_cache dir_three false) fresh_world.

(** The directory once only the second pack is left. *)
Definition dir_second : Dir := mkDir 50 [pack_2] example_disk.

(** A list in which the sort has something to do. *)
Definition world_unsorted : World :=
  mkWorld (mkPackedDB (Some [item_1; item_2]) 1 30) [].

(** One for the answer True, nothing for any other outcome. *)
Definition answered_true (r : Result bool) : Z :=
  match r with
  | inr true => 1
  | _ => 0
  end.

(** The sum of the hit counters of the items. *)
Definition total_hits (es : list Item) : Z := foldr Z.add 0 (map item_hits es).

(** A directory whose modification time is the epoch. *)
Definition dir_epoch : Dir := mkDir 0 [pack_1] example_disk.

(** The object after its first update, in the directory of one pack. *)
Definition world_one : World :=
  after (update_pack_entity_cache dir_one false) fresh_world.

(** * Proofs *)

(** ** The sort *)

Lemma sort_insert_perm x l : sort_insert x l ≡ₚ x :: l.
Proof.
  induction l as [|y l IH]; simpl; [done|].
  destruct (item_hits x <? item_hits y); [|done].
  rewrite IH. apply Permutation_swap.
Qed.

Lemma sort_by_hits_perm l : sort_by_hits l ≡ₚ l.
Proof.
  induction l as [|x l IH]; simpl; [done|].
  rewrite sort_insert_perm. by rewrite IH.
Qed.

Lemma sort_by_hits_elem_of x l : x ∈ sort_by_hits l ↔ x ∈ l.
Proof. by rewrite sort_by_hits_perm. Qed.

Lemma sort_insert_sorted x l :
  StronglySorted hits_ge l -> StronglySorted hits_ge (sort_insert x l).
Proof.
  induction 1 as [|y l Hs IH Hall]; simpl.
  - repeat constructor.
  - destruct (Z.ltb_spec (item_hits x) (item_hits y)) as [Hlt|Hge].
    + constructor; [done|].
      rewrite sort_insert_perm. constructor; [unfold hits_ge; lia|done].
    + constructor; [by constructor|].
      constructor; [done|].
      eapply Forall_impl; [exact Hall|]. unfold hits_ge. intros z Hz. simpl in Hz. lia.
Qed.

Lemma sort_by_hits_sorted l : StronglySorted hits_ge (sort_by_hits l).
Proof.
  induction l as [|x l IH]; simpl; [constructor|]. by apply sort_insert_sorted.
Qed.

(** The sort is stable: the items of one hit count keep their order. *)
Lemma sort_insert_stable k x l :
  filter (fun i => item_hits i = k) (sort_insert x l)
  = filter (fun i => item_hits i = k) (x :: l).
Proof.
  induction l as [|y l IH]; simpl; [done|].
  destruct (Z.ltb_spec (item_hits x) (item_hits y)) as [Hlt|Hge]; [|done].
  rewrite filter_cons, IH, !filter_cons.
  repeat case_decide; try done; lia.
Qed.

Lemma sort_by_hits_stable k l :
  filter (fun i => item_hits i = k) (sort_by_hits l)
  = filter (fun i => item_hits i = k) l.
Proof.
  induction l as [|x l IH]; simpl; [done|].
  rewrite sort_insert_stable, !filter_cons, IH. done.
Qed.

Lemma scan_order_perm n es : scan_order n es ≡ₚ es.
Proof. unfold scan_order. case_bool_decide; [apply sort_by_hits_perm|done]. Qed.

(** ** The monad *)

Lemma bind_inr {A B} (m : M A) (k : A -> M B) w a w' :
  m w = (inr a, w') -> bind m k w = k a w'.
Proof. unfold bind. by intros ->. Qed.

Lemma bind_inl {A B} (m : M A) (k : A -> M B) w e w' :
  m w = (inl e, w') -> bind m k w = (inl e, w').
Proof. unfold bind. by intros ->. Qed.

Lemma bind_bind {A B C} (m : M A) (f : A -> M B) (g : B -> M C) w :
  bind (bind m f) g w = bind m (fun x => bind (f x) g) w.
Proof. unfold bind. by destruct (m w) as [[e|a] w']. Qed.

Lemma world_eta w : mkWorld (self w) (trace w) = w.
Proof. by destruct w. Qed.

Lemma self_eta s : mkPackedDB (_entities s) (_hit_count s) (_st_mtime s) = s.
Proof. by destruct s. Qed.

(** ** The loops of the update *)

(** A registered path is found, at the first item that has it. *)
Lemma find_del_index_found pack_file i es :
  pack_file ∈ map item_path es ->
  exists pre item post,
    es = pre ++ item :: post /\
    item_path item = pack_file /\
    (pack_file ∉ map item_path pre) /\
    find_del_index pack_file i es = i + Z.of_nat (length pre).
Proof.
  revert i. induction es as [|x es IH]; intros i; simpl; [by intros ?%elem_of_nil|].
  intros Hin. case_bool_decide as Hx.
  - exists [], x, es. repeat split; [done| |simpl; lia]. simpl. apply not_elem_of_nil.
  - apply elem_of_cons in Hin as [Hin|Hin]; [by subst|].
    destruct (IH (i + 1) Hin) as (pre & item & post & E & Hp & Hpre & Hidx). subst es.
    exists (x :: pre), item, post. repeat split; [done| |].
    + simpl. rewrite elem_of_cons. intros [?|?]; [by subst|done].
    + rewrite Hidx. simpl length. lia.
Qed.

Lemma find_del_index_missing pack_file i es :
  pack_file ∉ map item_path es -> find_del_index pack_file i es = -1.
Proof.
  revert i. induction es as [|x es IH]; intros i; simpl; [done|].
  rewrite elem_of_cons. intros Hn. case_bool_decide; [by destruct Hn; left|].
  apply IH. tauto.
Qed.

Lemma remove_pack_found pack_file es :
  pack_file ∈ map item_path es ->
  exists pre item post,
    es = pre ++ item :: post /\
    item_path item = pack_file /\
    (pack_file ∉ map item_path pre) /\
    find_del_index pack_file 0 es ≠ -1 /\
    remove_pack es pack_file = pre ++ post.
Proof.
  intros Hin.
  destruct (find_del_index_found _ 0 _ Hin) as (pre & item & post & E & Hp & Hpre & Hidx).
  subst es.
  exists pre, item, post. repeat split; [done..|lia|].
  unfold remove_pack. simpl. rewrite Hidx, Z.add_0_l, Nat2Z.id.
  rewrite bool_decide_true by lia. apply delete_middle.
Qed.

Lemma remove_pack_sublist es pack_file : remove_pack es pack_file `sublist_of` es.
Proof.
  unfold remove_pack. simpl. case_bool_decide; [apply sublist_delete|done].
Qed.

Lemma remove_pack_other es pack_file item :
  item ∈ es -> item_path item ≠ pack_file -> item ∈ remove_pack es pack_file.
Proof.
  intros Hin Hne.
  destruct (decide (pack_file ∈ map item_path es)) as [Hp|Hp].
  - destruct (remove_pack_found _ _ Hp) as (pre & x & post & E & Hx & _ & _ & E').
    subst es. rewrite E'.
    rewrite elem_of_app, elem_of_cons in Hin. rewrite elem_of_app.
    destruct Hin as [?|[-> | ?]]; [by left|done|by right].
  - unfold remove_pack. simpl. rewrite find_del_index_missing by done.
    by rewrite bool_decide_false by lia.
Qed.

Lemma foldl_remove_pack_sublist dels es :
  foldl remove_pack es dels `sublist_of` es.
Proof.
  revert es. induction dels as [|p dels IH]; intros es; simpl; [done|].
  etrans; [apply IH|apply remove_pack_sublist].
Qed.

Lemma foldl_remove_pack_other dels es item :
  item ∈ es -> item_path item ∉ dels -> item ∈ foldl remove_pack es dels.
Proof.
  revert es. induction dels as [|p dels IH]; intros es Hin Hn; simpl; [done|].
  rewrite not_elem_of_cons in Hn. destruct Hn as [Hne Hn].
  apply IH; [|done]. by apply remove_pack_other.
Qed.

Lemma NoDup_set_iter `{SetIter} (X : gset string) : NoDup (set_iter X).
Proof. rewrite set_iter_perm. apply NoDup_elements. Qed.

Lemma elem_of_set_iter `{SetIter} (X : gset string) p : p ∈ set_iter X ↔ p ∈ X.
Proof. rewrite set_iter_perm. apply elem_of_elements. Qed.

(** ** The update on a state whose attribute is set *)

Section UpdateRun.
Context `{SetIter}.

(** Any way of reading the attribute that returns it when it is set. *)
Variable attr : M (list Item).
Hypothesis attr_loaded :
  forall w es, _entities (self w) = Some es -> attr w = (inr es, w).

Ltac mstep :=
  rewrite ?bind_bind;
  erewrite bind_inr by (first [reflexivity | apply attr_loaded; reflexivity]).

Lemma for_each_add d news : forall w es,
  _entities (self w) = Some es ->
  for_each news (fun pack_file =>
    let* entity := PackEntity_ d pack_file in
    let* es := attr in
    set_entities (es ++ [new_item entity])) w
  = (inr tt,
     mkWorld (mkPackedDB
                (Some (es ++ map (fun p => new_item (PackEntity_init d p)) news))
                (_hit_count (self w)) (_st_mtime (self w)))
             (trace w ++ map sys_open news)).
Proof.
  induction news as [|p news IH]; intros [[oes hc mt] tr] es Hes;
    simpl in Hes; subst oes.
  - simpl. by rewrite !app_nil_r.
  - cbn [for_each]. mstep. mstep. mstep.
    erewrite IH by reflexivity. simpl.
    by rewrite <- !app_assoc.
Qed.

Lemma for_each_remove dels : forall w es,
  _entities (self w) = Some es ->
  NoDup dels ->
  (forall p, p ∈ dels -> p ∈ map item_path es) ->
  for_each dels (fun pack_file =>
    let* es := attr in
    let del_index := find_del_index pack_file 0 es in
    run assert (bool_decide (del_index ≠ -1)) in
    set_entities (delete (Z.to_nat del_index) es)) w
  = (inr tt,
     mkWorld (mkPackedDB (Some (foldl remove_pack es dels))
                (_hit_count (self w)) (_st_mtime (self w)))
             (trace w)).
Proof.
  induction dels as [|p dels IH]; intros [[oes hc mt] tr] es Hes Hnd Hin;
    simpl in Hes; subst oes; [done|].
  apply NoDup_cons in Hnd as [Hp Hnd].
  destruct (remove_pack_found p es) as (pre & x & post & E & Hx & Hpre & Hidx & Hrm);
    [apply Hin; left|].
  cbn [for_each]. mstep. cbn zeta.
  rewrite (bool_decide_true _ Hidx). cbn [assert]. mstep.
  assert (Hrm' : delete (Z.to_nat (find_del_index p 0 es)) es = remove_pack es p).
  { unfold remove_pack. cbn zeta. by rewrite (bool_decide_true _ Hidx). }
  mstep. simpl. rewrite Hrm'. erewrite IH; [done|done|done|].
  intros q Hq. assert (q ≠ p) by (intros ->; done).
  specialize (Hin q (list_elem_of_further _ _ _ Hq)).
  apply list_elem_of_fmap in Hin as (y & -> & Hy).
  apply list_elem_of_fmap. exists y. split; [done|].
  apply remove_pack_other; [done|]. congruence.
Qed.

Lemma update_skipped d force w :
  gated d force w = true ->
  Body.update_pack_entity_cache attr d force w
  = (inr false, mkWorld (self w) (trace w ++ [sys_stat])).
Proof.
  unfold gated, Body.update_pack_entity_cache. intros Hg.
  mstep. mstep. cbn [self]. by rewrite Hg.
Qed.

Lemma removed_packs_registered d es news p :
  p ∈ removed_packs d es -> p ∈ map item_path (es ++ news).
Proof.
  unfold removed_packs. rewrite elem_of_set_iter, elem_of_difference.
  intros [Hp _]. apply elem_of_list_to_set in Hp.
  rewrite map_app. apply elem_of_app. by left.
Qed.

Lemma update_run_from d force w es w1 :
  gated d force w = false ->
  attr (scanned d w) = (inr es, w1) ->
  _entities (self w1) = Some es ->
  Body.update_pack_entity_cache attr d force w
  = (inr true,
     mkWorld (mkPackedDB (Some (reconciled d es))
                (_hit_count (self w1)) (_st_mtime (self w1)))
             (trace w1 ++ map sys_open (added_packs d es))).
Proof.
  intros Hg Hattr Hes. unfold gated in Hg.
  unfold Body.update_pack_entity_cache.
  mstep. mstep. cbn [self]. rewrite Hg.
  mstep. mstep. erewrite bind_inr by exact Hattr. cbn zeta.
  erewrite bind_inr by (apply for_each_add; exact Hes).
  erewrite bind_inr; cycle 1.
  { apply for_each_remove; [reflexivity|apply NoDup_set_iter|].
    intros p Hp. by apply (removed_packs_registered d es). }
  unfold Body._sort_entities. mstep. mstep. reflexivity.
Qed.

Lemma update_run d force w es :
  _entities (self w) = Some es ->
  gated d force w = false ->
  Body.update_pack_entity_cache attr d force w
  = (inr true,
     mkWorld (mkPackedDB (Some (reconciled d es))
                (_hit_count (self w)) (st_mtime d))
             (trace w ++ [sys_stat; sys_glob] ++ map sys_open (added_packs d es))).
Proof.
  intros Hes Hg.
  erewrite update_run_from; [|done|by apply attr_loaded|done].
  simpl. by rewrite <- !app_assoc.
Qed.

End UpdateRun.

(** ** Reading the attribute *)

Lemma entities_loaded_Some w es :
  _entities (self w) = Some es -> entities_loaded w = (inr es, w).
Proof. unfold entities_loaded, bind, get_self. by intros ->. Qed.

Section Attribute.
Context `{SetIter}.

Lemma entities_attr_Some d w es :
  _entities (self w) = Some es -> entities_attr d w = (inr es, w).
Proof. unfold entities_attr, bind, get_self. by intros ->. Qed.

(** The list and the state [_set_cache_] leaves: empty when the nested
    update is skipped, what the update makes of the empty list
    otherwise. *)
Lemma entities_attr_None d w :
  _entities (self w) = None ->
  entities_attr d w =
    if bool_decide (st_mtime d <= _st_mtime (self w)) then
      (inr [],
       mkWorld (mkPackedDB (Some []) (_hit_count (self w)) (_st_mtime (self w)))
               (trace w ++ [sys_stat]))
    else
      (inr (reconciled d []),
       mkWorld (mkPackedDB (Some (reconciled d [])) (_hit_count (self w)) (st_mtime d))
               (trace w ++ [sys_stat; sys_glob] ++ map sys_open (added_packs d []))).
Proof.
  intros Hn. unfold entities_attr.
  erewrite bind_inr by reflexivity. rewrite Hn.
  unfold _set_cache_. rewrite !bind_bind.
  erewrite bind_inr by reflexivity. rewrite !bind_bind.
  case_bool_decide as Hm.
  - erewrite bind_inr; cycle 1.
    { apply update_skipped. unfold gated. simpl. by apply bool_decide_eq_true. }
    erewrite bind_inr by reflexivity. reflexivity.
  - erewrite bind_inr; cycle 1.
    { apply (update_run _ entities_loaded_Some _ _ _ []); [done|].
      unfold gated. simpl. by apply bool_decide_eq_false. }
    erewrite bind_inr by reflexivity. reflexivity.
Qed.

Lemma entities_attr_run d w :
  entities_attr d w = (inr (registered d w), loaded d w) /\
  _entities (self (loaded d w)) = Some (registered d w) /\
  _hit_count (self (loaded d w)) = _hit_count (self w).
Proof.
  unfold registered, loaded.
  destruct (_entities (self w)) as [es|] eqn:E.
  - by rewrite (entities_attr_Some _ _ _ E).
  - rewrite (entities_attr_None _ _ E). by case_bool_decide.
Qed.

Lemma loaded_Some d w es :
  _entities (self w) = Some es -> registered d w = es /\ loaded d w = w.
Proof.
  intros E. unfold registered, loaded. by rewrite (entities_attr_Some _ _ _ E).
Qed.

Lemma loaded_idem d w : loaded d (loaded d w) = loaded d w.
Proof.
  destruct (entities_attr_run d w) as (_ & E & _).
  by destruct (loaded_Some d _ _ E).
Qed.

End Attribute.

(** ** The scan of [_pack_info] *)

Lemma pack_scan_None sha es :
  pack_scan sha es = None ↔ Forall (fun i => item_sha_to_index i sha = None) es.
Proof.
  induction es as [|x es IH]; simpl; [by split; [constructor|]|].
  destruct (item_sha_to_index x sha) as [index|] eqn:E.
  - split; [done|]. intros Hall. apply Forall_cons in Hall as [Hx _]. congruence.
  - destruct (pack_scan sha es) as [[r rest]|].
    + split; [done|]. intros Hall. apply Forall_cons in Hall as [_ Hall].
      by apply IH in Hall.
    + split; [|done]. intros _. constructor; [done|]. by apply IH.
Qed.

Lemma pack_scan_Some sha es r es' :
  pack_scan sha es = Some (r, es') ->
  exists pre item post index,
    es = pre ++ item :: post /\
    Forall (fun i => item_sha_to_index i sha = None) pre /\
    item_sha_to_index item sha = Some index /\
    r = (item_entity item, index) /\
    es' = pre ++ hit item :: post.
Proof.
  revert r es'. induction es as [|x es IH]; intros r es'; simpl; [done|].
  destruct (item_sha_to_index x sha) as [index|] eqn:E.
  - intros [= <- <-]. by exists [], x, es, index.
  - destruct (pack_scan sha es) as [[r0 rest]|]; [|done].
    intros [= <- <-].
    destruct (IH _ _ eq_refl) as (pre & item & post & index & -> & Hpre & Hi & -> & ->).
    exists (x :: pre), item, post, index. repeat split; [|done]. by constructor.
Qed.

Lemma pack_scan_resolves sha es :
  existsb (resolves sha) es = true ↔ is_Some (pack_scan sha es).
Proof.
  rewrite <- not_eq_None_Some, pack_scan_None, existsb_exists.
  split.
  - intros (x & Hx & Hr) Hall. rewrite Forall_forall in Hall.
    unfold resolves in Hr. by rewrite (Hall x) in Hr by (by apply list_elem_of_In).
  - intros Hn. apply not_Forall_Exists in Hn; [|intros x; apply _].
    apply Exists_exists in Hn as (x & Hx & Hr). exists x.
    split; [by apply list_elem_of_In|].
    unfold resolves. simpl in Hr. by destruct (item_sha_to_index x sha).
Qed.

Lemma pack_scan_paths sha es r es' :
  pack_scan sha es = Some (r, es') -> map item_path es' = map item_path es.
Proof.
  intros (pre & item & post & index & -> & _ & _ & _ & ->)%pack_scan_Some.
  by rewrite !map_app.
Qed.

(** ** The lookup methods *)

Section Lookup.
Context `{SetIter}.

Lemma pack_info_run d sha w :
  _pack_info d sha w =
    let hc := _hit_count (self w) in
    let w1 := loaded d w in
    let es := scan_order hc (registered d w) in
    match to_bin_sha sha with
    | inl e =>
        (inl e,
         if bool_decide (hc `mod` _sort_interval = 0)
         then mkWorld (mkPackedDB (Some es) hc (_st_mtime (self w1))) (trace w1)
         else w)
    | inr b =>
        match pack_scan b es with
        | Some (r, es') =>
            (inr r,
             mkWorld (mkPackedDB (Some es') (hc + 1) (_st_mtime (self w1))) (trace w1))
        | None =>
            (inl (BadObject b),
             mkWorld (mkPackedDB (Some es) hc (_st_mtime (self w1))) (trace w1))
        end
    end.
Proof.
  destruct (entities_attr_run d w) as (Ha & Hl & Hh).
  cbn zeta. unfold scan_order, _pack_info, Body._pack_info.
  erewrite bind_inr by reflexivity.
  case_bool_decide as Hmod.
  - unfold Body._sort_entities. rewrite !bind_bind.
    erewrite bind_inr by exact Ha.
    erewrite bind_inr by reflexivity.
    destruct (to_bin_sha sha) as [e|b].
    + erewrite bind_inl by reflexivity. cbn. by rewrite Hh.
    + erewrite bind_inr by reflexivity.
      erewrite bind_inr by (by apply entities_attr_Some).
      destruct (pack_scan b (sort_by_hits (registered d w))) as [[r es']|]; cbn; by rewrite Hh.
  - erewrite bind_inr by reflexivity.
    destruct (to_bin_sha sha) as [e|b].
    + by erewrite bind_inl by reflexivity.
    + erewrite bind_inr by reflexivity.
      erewrite bind_inr by exact Ha.
      destruct (pack_scan b (registered d w)) as [[r es']|]; cbn.
      * by rewrite Hh.
      * rewrite <- Hh, <- Hl, self_eta, world_eta. reflexivity.
Qed.

End Lookup.

Section LookupResults.
Context `{SetIter}.

Lemma has_object_run d sha w :
  has_object d sha w =
    match _pack_info d sha w with
    | (inr _, w') => (inr true, w')
    | (inl (BadObject _), w') => (inr false, w')
    | (inl e, w') => (inl e, w')
    end.
Proof.
  unfold has_object, Body.has_object, try_except, bind.
  fold (_pack_info d sha).
  by destruct (_pack_info d sha w) as [[[]|[]] w'].
Qed.

(** C3: for a hash that resolves in a registered archive, [_pack_info]
    returns the entity and the index of the first item, in the order
    the scan meets the list, whose lookup answers; the hit counter of
    that item and the global hit counter are each incremented by one,
    and nothing else changes. *)
Theorem pack_info_first_hit d sha b w :
  to_bin_sha sha = inr b ->
  (exists item, item ∈ registered d w /\ item_sha_to_index item b ≠ None) ->
  exists pre item post index,
    scan_order (_hit_count (self w)) (registered d w) = pre ++ item :: post /\
    Forall (fun i => item_sha_to_index i b = None) pre /\
    item_sha_to_index item b = Some index /\
    item_hits (hit item) = item_hits item + 1 /\
    _pack_info d sha w =
      (inr (item_entity item, index),
       mkWorld (mkPackedDB (Some (pre ++ hit item :: post))
                  (_hit_count (self w) + 1)
                  (_st_mtime (self (loaded d w))))
               (trace (loaded d w))).
Proof.
  intros Hb (x & Hx & Hr).
  rewrite pack_info_run, Hb. cbn zeta.
  destruct (pack_scan b (scan_order (_hit_count (self w)) (registered d w)))
    as [[r es']|] eqn:E.
  - apply pack_scan_Some in E as (pre & item & post & index & E & Hpre & Hi & -> & ->).
    by exists pre, item, post, index.
  - apply pack_scan_None in E. rewrite Forall_forall in E.
    destruct Hr. apply E. by rewrite scan_order_perm.
Qed.

(** C4: for a hash that resolves in no registered archive, [_pack_info]
    raises [BadObject]; the items are the ones registered, with their
    hit counters, and the global hit counter is as before.
    [has_object] returns false in exactly this case and true in
    exactly the other one. *)
Theorem pack_info_miss d sha b w :
  to_bin_sha sha = inr b ->
  let es := registered d w in
  let miss := Forall (fun i => item_sha_to_index i b = None) es in
  let w' :=
    mkWorld (mkPackedDB (Some (scan_order (_hit_count (self w)) es))
               (_hit_count (self w)) (_st_mtime (self (loaded d w))))
            (trace (loaded d w)) in
  (miss ->
     _pack_info d sha w = (inl (BadObject b), w') /\
     has_object d sha w = (inr false, w') /\
     scan_order (_hit_count (self w)) es ≡ₚ es) /\
  (fst (has_object d sha w) = inr false ↔ miss) /\
  (fst (has_object d sha w) = inr true ↔ ¬ miss).
Proof.
  intros Hb es miss w'.
  assert (Hscan : pack_scan b (scan_order (_hit_count (self w)) es) = None ↔ miss).
  { rewrite pack_scan_None. unfold miss. by rewrite scan_order_perm. }
  rewrite has_object_run, pack_info_run, Hb. cbn zeta. fold es.
  destruct (pack_scan b (scan_order (_hit_count (self w)) es)) as [[r es']|] eqn:E.
  - assert (¬ miss) by (rewrite <- Hscan; done).
    repeat split; try done.
  - assert (miss) by (by apply Hscan).
    repeat split; try done. apply scan_order_perm.
Qed.

End LookupResults.

(** ** The two forms of a hash *)

Lemma hex_to_bin_length hx b :
  hex_to_bin hx = Some b -> String.length hx = (2 * String.length b)%nat.
Proof.
  revert hx. induction b as [|c b IH]; intros [|c1 [|c2 rest]]; simpl; try done.
  - destruct (hex_digit c1), (hex_digit c2), (hex_to_bin rest); done.
  - destruct (hex_digit c1), (hex_digit c2), (hex_to_bin rest) as [r|] eqn:E; try done.
    intros [= _ ->]. rewrite (IH _ E). lia.
Qed.

Lemma hex_byte_roundtrip c :
  hex_digit (hex_char (N_of_ascii c / 16)) = Some (N_of_ascii c / 16)%N /\
  hex_digit (hex_char (N_of_ascii c mod 16)) = Some (N_of_ascii c mod 16)%N /\
  ascii_of_N (16 * (N_of_ascii c / 16) + N_of_ascii c mod 16) = c.
Proof. destruct c as [[] [] [] [] [] [] [] []]; vm_compute; done. Qed.

(** Every binary string has a hexadecimal form, which decodes to it. *)
Lemma hex_to_bin_to_hex b : hex_to_bin (bin_to_hex b) = Some b.
Proof.
  induction b as [|c b IH]; [done|].
  destruct (hex_byte_roundtrip c) as (H1 & H2 & H3).
  cbn [bin_to_hex hex_to_bin]. cbv zeta. by rewrite H1, H2, IH, H3.
Qed.

Lemma to_bin_sha_bin b : String.length b = 20%nat -> to_bin_sha b = inr b.
Proof. unfold to_bin_sha. by intros ->. Qed.

Lemma to_bin_sha_hex hx b :
  String.length b = 20%nat -> hex_to_bin hx = Some b -> to_bin_sha hx = inr b.
Proof.
  intros Hb Hx. unfold to_bin_sha.
  rewrite (hex_to_bin_length _ _ Hx), Hb, Hx. done.
Qed.

Section Normalised.
Context `{SetIter}.

(** The lookup depends on its argument through [to_bin_sha] alone. *)
Lemma pack_info_normalised d sha1 sha2 :
  to_bin_sha sha1 = to_bin_sha sha2 -> _pack_info d sha1 = _pack_info d sha2.
Proof. unfold _pack_info, Body._pack_info. by intros ->. Qed.

(** C9: a hash in its hexadecimal form and the same hash in its binary
    form give the same lookup, and so the same answer of [has_object],
    [info] and [stream], in result and in state. *)
Theorem lookup_hex_bin d hx b w :
  String.length b = 20%nat ->
  hex_to_bin hx = Some b ->
  _pack_info d hx w = _pack_info d b w /\
  has_object d hx w = has_object d b w /\
  info d hx w = info d b w /\
  stream d hx w = stream d b w.
Proof.
  intros Hb Hx.
  assert (E : _pack_info d hx = _pack_info d b).
  { apply pack_info_normalised.
    by rewrite (to_bin_sha_hex _ _ Hb Hx), (to_bin_sha_bin _ Hb). }
  unfold has_object, Body.has_object, info, Body.info, stream, Body.stream.
  fold (_pack_info d hx) (_pack_info d b). by rewrite E.
Qed.

End Normalised.

(** ** Writing *)

(** C6: [store] raises [UnsupportedOperation] whatever it is given, and
    leaves the object (the items with their hit counters, the global hit
    counter, the stored modification time) and the record of system
    calls as they were; the attribute [_entities] is not even read. *)
Theorem store_unsupported {IStream : Type} (istream : IStream) (w : World) :
  fst (store istream w) = inl UnsupportedOperation /\
  after (store istream) w = w /\
  _entities (self (after (store istream) w)) = _entities (self w) /\
  _hit_count (self (after (store istream) w)) = _hit_count (self w) /\
  _st_mtime (self (after (store istream) w)) = _st_mtime (self w).
Proof. unfold store, raise, after. simpl. repeat split. Qed.

(** ** The update *)

Section Update.
Context `{SetIter}.

Lemma scanned_attr d w :
  entities_attr d (scanned d w)
  = (inr (current w),
     mkWorld (mkPackedDB (Some (current w)) (_hit_count (self w)) (st_mtime d))
             (trace (scanned d w) ++ lazy_stat w)).
Proof.
  unfold current, lazy_stat.
  destruct (_entities (self w)) as [es|] eqn:E.
  - rewrite (entities_attr_Some _ _ es) by (simpl; done).
    unfold scanned. rewrite E. simpl. by rewrite app_nil_r.
  - rewrite entities_attr_None by (simpl; done). simpl.
    by rewrite bool_decide_true by lia.
Qed.

Lemma update_skip d force w :
  gated d force w = true ->
  update_pack_entity_cache d force w
  = (inr false, mkWorld (self w) (trace w ++ [sys_stat])).
Proof. apply update_skipped. Qed.

Lemma update_reconcile d force w :
  gated d force w = false ->
  update_pack_entity_cache d force w
  = (inr true,
     mkWorld (mkPackedDB (Some (reconciled d (current w)))
                (_hit_count (self w)) (st_mtime d))
             ((trace (scanned d w) ++ lazy_stat w)
                ++ map sys_open (added_packs d (current w)))).
Proof.
  intros Hg. unfold update_pack_entity_cache.
  by rewrite (update_run_from _ (entities_attr_Some d) _ _ _ _ _
                Hg (scanned_attr d w) eq_refl).
Qed.

Lemma update_sets_mtime d force w :
  st_mtime d <= _st_mtime (self (after (update_pack_entity_cache d force) w)).
Proof.
  unfold after. destruct (gated d force w) eqn:Hg.
  - rewrite update_skip by done. simpl.
    unfold gated in Hg. apply andb_true_iff in Hg as [_ Hg].
    by apply bool_decide_eq_true in Hg.
  - rewrite update_reconcile by done. simpl. lia.
Qed.

(** The update, written with the pass of its removal loop named. *)
Lemma update_runs_removal_step d force :
  update_pack_entity_cache d force =
    (let* stat := os_stat d in
     let* s := get_self in
     if negb force && bool_decide (stat <= _st_mtime s) then ret false
     else
       run set_st_mtime stat in
       let* files := glob_glob d in
       let pack_files : gset string := list_to_set files in
       let* es := entities_attr d in
       let our_pack_files : gset string := list_to_set (map item_path es) in
       run for_each (set_iter (pack_files ∖ our_pack_files)) (fun pack_file =>
         let* entity := PackEntity_ d pack_file in
         let* es := entities_attr d in
         set_entities (es ++ [new_item entity])) in
       run for_each (set_iter (our_pack_files ∖ pack_files)) (removal_step d) in
       run _sort_entities d in
       ret true).
Proof. reflexivity. Qed.

Lemma removal_step_found d p w es :
  _entities (self w) = Some es ->
  p ∈ map item_path es ->
  exists item,
    find_del_index p 0 es ≠ -1 /\
    es !! Z.to_nat (find_del_index p 0 es) = Some item /\
    item_path item = p /\
    removal_step d p w
    = (inr tt, with_entities (delete (Z.to_nat (find_del_index p 0 es)) es) w).
Proof.
  intros Hes Hp.
  destruct (find_del_index_found p 0 es Hp) as (pre & item & post & E & Hx & _ & Hi).
  exists item. rewrite Z.add_0_l in Hi.
  assert (Hne : find_del_index p 0 es ≠ -1) by lia.
  repeat split; [done| |done|].
  - rewrite Hi, Nat2Z.id, E. by rewrite list_lookup_middle.
  - unfold removal_step.
    erewrite bind_inr by (by apply entities_attr_Some). cbn zeta.
    rewrite (bool_decide_true _ Hne). cbn [assert].
    by erewrite bind_inr by reflexivity.
Qed.

(** C7: at each pass of the removal loop, the search finds an item: the
    index it yields is not [-1], it is a position of the list, the item
    there has the path looked for, and that item is the one deleted; so
    the assertion holds each time and an update raises no
    [AssertionError]. *)
Theorem update_assertion_holds d force w :
  (forall w', update_pack_entity_cache d force w ≠ (inl AssertionError, w')) /\
  (forall done p rest w0,
     removed_packs d (current w) = done ++ p :: rest ->
     _entities (self w0) = Some (current w ++ added_items d (current w)) ->
     exists es item,
       for_each done (removal_step d) w0 = (inr tt, with_entities es w0) /\
       find_del_index p 0 es ≠ -1 /\
       es !! Z.to_nat (find_del_index p 0 es) = Some item /\
       item_path item = p /\
       removal_step d p (with_entities es w0)
       = (inr tt, with_entities (delete (Z.to_nat (find_del_index p 0 es)) es) w0)).
Proof.
  split.
  - intros w'. destruct (gated d force w) eqn:Hg.
    + by rewrite update_skip.
    + by rewrite update_reconcile.
  - intros done p rest w0 Hsplit Hw0.
    set (es0 := current w ++ added_items d (current w)) in *.
    pose proof (NoDup_set_iter
                  (list_to_set (map item_path (current w))
                   ∖ list_to_set (glob_result d))) as Hnd.
    fold (removed_packs d (current w)) in Hnd. rewrite Hsplit in Hnd.
    apply NoDup_app in Hnd as (Hdone & Hdis & Hrest).
    assert (Hreg : forall q, q ∈ done ++ p :: rest -> q ∈ map item_path es0).
    { intros q Hq. rewrite <- Hsplit in Hq.
      by apply (removed_packs_registered d (current w)). }
    pose proof (for_each_remove (entities_attr d) (entities_attr_Some d)
                  done w0 es0 Hw0 Hdone) as Hloop.
    exists (foldl remove_pack es0 done).
    assert (Hp : p ∈ map item_path (foldl remove_pack es0 done)).
    { assert (Hp0 : p ∈ map item_path es0)
        by (apply Hreg, elem_of_app; right; left).
      apply list_elem_of_fmap in Hp0 as (x & -> & Hx).
      apply list_elem_of_fmap. exists x. split; [done|].
      apply foldl_remove_pack_other; [done|].
      intros Hin. apply (Hdis _ Hin). left. }
    destruct (removal_step_found d p (with_entities (foldl remove_pack es0 done) w0)
                _ eq_refl Hp) as (item & Hne & Hlook & Hpath & Hstep).
    exists item. split; [|done].
    apply Hloop. intros q Hq. apply Hreg, elem_of_app. by left.
Qed.

Lemma reconciled_keeps d es item :
  item ∈ es -> item_path item ∈ glob_result d -> item ∈ reconciled d es.
Proof.
  intros Hin Hdisk. unfold reconciled.
  apply sort_by_hits_elem_of, foldl_remove_pack_other.
  - apply elem_of_app. by left.
  - unfold removed_packs. rewrite elem_of_set_iter, elem_of_difference.
    intros [_ Hn]. apply Hn. by apply elem_of_list_to_set.
Qed.

(** C10: an item registered before an update, whose pack file the
    directory still lists, is an item of the list after it, with the
    entity, the lookup and the hit counter it had. *)
Theorem update_keeps_item d force w es item :
  _entities (self w) = Some es ->
  item ∈ es ->
  item_path item ∈ glob_result d ->
  exists es',
    _entities (self (after (update_pack_entity_cache d force) w)) = Some es' /\
    item ∈ es'.
Proof.
  intros Hes Hin Hdisk. unfold after.
  destruct (gated d force w) eqn:Hg.
  - rewrite update_skip by done. simpl. eauto.
  - rewrite update_reconcile by done. simpl.
    eexists; split; [done|]. apply reconciled_keeps; [|done].
    unfold current. by rewrite Hes.
Qed.

End Update.

(** C5: a call with [force] false, made while the modification time of
    the directory is not beyond the stored one, or made right after
    another call saw the same directory, returns false at once: it
    stats the directory, does not list it, and leaves the object as it
    was. *)
Theorem update_gate `{SetIter} d w :
  (st_mtime d <= _st_mtime (self w) \/
   exists (I0 : SetIter) force0 w0,
     w = after (@update_pack_entity_cache I0 d force0) w0) ->
  update_pack_entity_cache d false w
  = (inr false, mkWorld (self w) (trace w ++ [sys_stat])).
Proof.
  intros Hw. apply update_skip. unfold gated. simpl.
  apply bool_decide_eq_true.
  destruct Hw as [Hle|(I0 & force0 & w0 & ->)]; [done|].
  apply (@update_sets_mtime I0).
Qed.

(** ** Distinct paths *)

Lemma sublist_paths (l k : list Item) :
  l `sublist_of` k -> map item_path l `sublist_of` map item_path k.
Proof. induction 1; simpl; by constructor. Qed.

Section Distinct.
Context `{SetIter}.

Lemma item_path_added d news :
  map item_path (map (fun p => new_item (PackEntity_init d p)) news) = news.
Proof. induction news as [|p news IH]; simpl; [done|]. by rewrite IH. Qed.

Lemma reconciled_NoDup d es :
  NoDup (map item_path es) -> NoDup (map item_path (reconciled d es)).
Proof.
  intros Hnd. unfold reconciled. rewrite sort_by_hits_perm.
  eapply sublist_NoDup; [|apply sublist_paths, foldl_remove_pack_sublist].
  rewrite map_app, item_path_added. apply NoDup_app.
  split; [done|]. split; [|apply NoDup_set_iter].
  intros p Hp. unfold added_packs.
  rewrite elem_of_set_iter, elem_of_difference.
  intros [_ Hn]. apply Hn. by apply elem_of_list_to_set.
Qed.

Lemma registered_NoDup d w :
  paths_distinct w -> NoDup (map item_path (registered d w)).
Proof.
  unfold paths_distinct, registered.
  destruct (_entities (self w)) as [es|] eqn:E.
  - by rewrite (entities_attr_Some _ _ _ E).
  - intros _. rewrite (entities_attr_None _ _ E).
    case_bool_decide; simpl; [constructor|].
    apply reconciled_NoDup. constructor.
Qed.

Lemma loaded_distinct d w : paths_distinct w -> paths_distinct (loaded d w).
Proof.
  intros Hw. destruct (entities_attr_run d w) as (_ & E & _).
  unfold paths_distinct. rewrite E. by apply registered_NoDup.
Qed.

Lemma pack_info_distinct d sha w :
  paths_distinct w -> paths_distinct (after (_pack_info d sha) w).
Proof.
  intros Hw. pose proof (registered_NoDup d w Hw) as Hr.
  assert (Hs : NoDup (map item_path (scan_order (_hit_count (self w)) (registered d w))))
    by (by rewrite scan_order_perm).
  unfold after. rewrite pack_info_run. cbn zeta.
  destruct (to_bin_sha sha) as [e|b].
  - simpl. by case_bool_decide.
  - destruct (pack_scan _ _) as [[r es']|] eqn:E; simpl; [|done].
    unfold paths_distinct. simpl. by rewrite (pack_scan_paths _ _ _ _ E).
Qed.

Lemma update_distinct d force w :
  paths_distinct w -> paths_distinct (after (update_pack_entity_cache d force) w).
Proof.
  intros Hw. unfold after. destruct (gated d force w) eqn:Hg.
  - by rewrite update_skip.
  - rewrite update_reconcile by done. unfold paths_distinct. simpl.
    apply reconciled_NoDup. unfold current, paths_distinct in *.
    destruct (_entities (self w)); [done|constructor].
Qed.

Lemma after_pack_info_bind {A} d sha (k : PackEntity.t * Z -> M A) w :
  (forall r w', snd (k r w') = w') ->
  after (let* r := _pack_info d sha in k r) w = after (_pack_info d sha) w.
Proof.
  intros Hk. unfold after, bind.
  destruct (_pack_info d sha w) as [[e|r] w']; [done|apply Hk].
Qed.

(** Every call keeps the paths of the items distinct. *)
Lemma run_call_distinct d c w :
  paths_distinct w -> paths_distinct (run_call d c w).
Proof.
  intros Hw. destruct c as [sha|sha|sha|sha|istream|reader|force| | |]; simpl.
  - by apply pack_info_distinct.
  - replace (after (has_object d sha) w) with (after (_pack_info d sha) w);
      [by apply pack_info_distinct|].
    unfold after. rewrite has_object_run.
    by destruct (_pack_info d sha w) as [[[]|[]] w'].
  - unfold info, Body.info. fold (_pack_info d sha).
    rewrite after_pack_info_bind; [by apply pack_info_distinct|by intros []].
  - unfold stream, Body.stream. fold (_pack_info d sha).
    rewrite after_pack_info_bind; [by apply pack_info_distinct|by intros []].
  - done.
  - done.
  - by apply update_distinct.
  - destruct (entities_attr_run d w) as (E & _).
    unfold after, entities, Body.entities. erewrite bind_inr by exact E.
    simpl. by apply loaded_distinct.
  - destruct (entities_attr_run d w) as (E & _).
    unfold after, sha_iter, Body.sha_iter, Body.entities. rewrite bind_bind.
    erewrite bind_inr by exact E. simpl. by apply loaded_distinct.
  - destruct (entities_attr_run d w) as (E & _).
    unfold after, size, Body.size. erewrite bind_inr by exact E.
    simpl. by apply loaded_distinct.
Qed.

(** The path of an item is the path of its pack, which an update binds
    to a path of the directory that no item has yet. *)
Lemma added_packs_new d es p :
  p ∈ added_packs d es -> p ∈ glob_result d /\ p ∉ map item_path es.
Proof.
  unfold added_packs. rewrite elem_of_set_iter, elem_of_difference.
  by rewrite !elem_of_list_to_set.
Qed.

End Distinct.

(** C8: in every state an object reaches from its construction, no two
    items have the same pack path; each call keeps it so, an update
    adding items only for paths of the directory that no item has. *)
Theorem reachable_paths_distinct (w : World) :
  reachable w -> paths_distinct w.
Proof.
  induction 1 as [|I d c w _ IH]; [exact I|]. by apply run_call_distinct.
Qed.

(** ** Counting *)

Section Counting.
Context `{SetIter}.

Lemma size_run d w :
  size d w = (reduce Z.add (index_sizes (registered d w)), loaded d w).
Proof.
  destruct (entities_attr_run d w) as (E & _).
  unfold size, Body.size. by erewrite bind_inr by exact E.
Qed.

Lemma fold_left_add l x : fold_left Z.add l x = x + foldr Z.add 0 l.
Proof.
  revert x. induction l as [|y l IH]; intros x; simpl; [lia|]. rewrite IH. lia.
Qed.

(** With an item registered, [size] is the sum of the object counts. *)
Lemma size_sum d w :
  registered d w ≠ [] ->
  fst (size d w) = inr (foldr Z.add 0 (index_sizes (registered d w))).
Proof.
  intros Hne. rewrite size_run. simpl.
  destruct (registered d w) as [|x es]; [done|].
  simpl. by rewrite fold_left_add.
Qed.

(** With none registered, [reduce] has nothing to start from. *)
Lemma size_none d w :
  registered d w = [] -> fst (size d w) = inl TypeError.
Proof. intros E. rewrite size_run. simpl. by rewrite E. Qed.

End Counting.

(** C2: [size] is the sum of the object counts of the registered packs
    once there is one ([size_sum]); on an object whose directory holds
    no pack it raises [TypeError] where 0 is specified: no item is
    registered, and [reduce] is given an empty list and no initial
    value. *)
Theorem size_empty_raises :
  registered dir_empty fresh_world = [] /\
  fst (size dir_empty fresh_world) = inl TypeError.
Proof. split; [by vm_compute|]. apply size_none. by vm_compute. Qed.

(** C1: a forced update of an object whose directory did not change
    returns true where false is specified: no pack is added, none is
    removed, and the object is left as it was. *)
Theorem update_unchanged_returns_true :
  added_packs dir_two (current world_two) = [] /\
  removed_packs dir_two (current world_two) = [] /\
  self (after (update_pack_entity_cache dir_two true) world_two) = self world_two /\
  fst (update_pack_entity_cache dir_two true world_two) = inr true.
Proof. repeat split; by vm_compute. Qed.

(** ** The theorems at work *)

Lemma pack_info_first_hit_witness :
  exists pre item post index,
    scan_order (_hit_count (self fresh_world)) (registered dir_two fresh_world)
      = pre ++ item :: post /\
    Forall (fun i => item_sha_to_index i sha_a = None) pre /\
    item_sha_to_index item sha_a = Some index /\
    item_hits (hit item) = item_hits item + 1 /\
    _pack_info dir_two hex_a fresh_world =
      (inr (item_entity item, index),
       mkWorld (mkPackedDB (Some (pre ++ hit item :: post))
                  (_hit_count (self fresh_world) + 1)
                  (_st_mtime (self (loaded dir_two fresh_world))))
               (trace (loaded dir_two fresh_world))).
Proof.
  apply (pack_info_first_hit dir_two hex_a sha_a fresh_world).
  - reflexivity.
  - exists item_2. split; [vm_compute; left|vm_compute; discriminate].
Defined.

Lemma pack_info_miss_witness :
  _pack_info dir_two sha_d fresh_world
  = (inl (BadObject sha_d),
     mkWorld (mkPackedDB (Some [item_2; item_1]) 0 30)
             [sys_stat; sys_glob; sys_open pack_1; sys_open pack_2]) /\
  fst (has_object dir_two sha_d fresh_world) = inr false.
Proof.
  destruct (pack_info_miss dir_two sha_d sha_d fresh_world eq_refl) as (Hmiss & Hfalse & _).
  assert (Hnone : Forall (fun i => item_sha_to_index i sha_d = None)
                         (registered dir_two fresh_world)).
  { vm_compute. repeat constructor. }
  split; [|by apply Hfalse].
  destruct (Hmiss Hnone) as (E & _). rewrite E. vm_compute. reflexivity.
Defined.

Lemma update_gate_witness :
  update_pack_entity_cache dir_two false world_two
  = (inr false, mkWorld (self world_two) (trace world_two ++ [sys_stat])).
Proof.
  apply (update_gate dir_two world_two).
  right. exists elements_iter, false, fresh_world. reflexivity.
Defined.

Lemma reachable_paths_distinct_witness :
  paths_distinct
    (run_call dir_two (call_pack_info hex_a)
       (run_call dir_two (call_update_pack_entity_cache false)
          (run_call dir_one (call_update_pack_entity_cache true) fresh_world))) /\
  map item_path
    (current
       (run_call dir_two (call_pack_info hex_a)
          (run_call dir_two (call_update_pack_entity_cache false)
             (run_call dir_one (call_update_pack_entity_cache true) fresh_world))))
  = [pack_2; pack_1].
Proof.
  split; [|vm_compute; reflexivity].
  apply reachable_paths_distinct.
  apply reachable_call, reachable_call, reachable_call, reachable_init.
Defined.

Lemma lookup_hex_bin_witness :
  _pack_info dir_two hex_a fresh_world = _pack_info dir_two sha_a fresh_world /\
  has_object dir_two hex_a fresh_world = has_object dir_two sha_a fresh_world /\
  info dir_two hex_a fresh_world = info dir_two sha_a fresh_world /\
  stream dir_two hex_a fresh_world = stream dir_two sha_a fresh_world.
Proof.
  apply (lookup_hex_bin dir_two hex_a sha_a fresh_world); reflexivity.
Defined.

Lemma update_keeps_item_witness :
  exists es',
    _entities (self (after (update_pack_entity_cache dir_one true) world_two)) = Some es' /\
    item_1 ∈ es'.
Proof.
  apply (update_keeps_item dir_one true world_two [item_2; item_1] item_1).
  - vm_compute. reflexivity.
  - right. left.
  - vm_compute. left.
Defined.

(** * Further results *)

(** ** The search of the removal loop *)

(** X2: the search of the removal loop answers [-1] exactly when no item
    has the path; otherwise it answers the position of the first item
    that has it, a position of the list. *)
Theorem find_del_index_spec pack_file es :
  (find_del_index pack_file 0 es = -1 ↔ pack_file ∉ map item_path es) /\
  (pack_file ∈ map item_path es ->
   exists item,
     es !! Z.to_nat (find_del_index pack_file 0 es) = Some item /\
     item_path item = pack_file /\
     0 <= find_del_index pack_file 0 es < Z.of_nat (length es) /\
     pack_file ∉ map item_path (take (Z.to_nat (find_del_index pack_file 0 es)) es)).
Proof.
  split.
  - split; [|apply find_del_index_missing].
    intros E Hin.
    destruct (find_del_index_found pack_file 0 es Hin) as (pre & x & post & _ & _ & _ & Hi).
    lia.
  - intros Hin.
    destruct (find_del_index_found pack_file 0 es Hin) as (pre & x & post & -> & Hx & Hpre & Hi).
    rewrite Hi, Z.add_0_l, Nat2Z.id. exists x. repeat split.
    + by rewrite list_lookup_middle.
    + done.
    + lia.
    + rewrite length_app. simpl. lia.
    + by rewrite take_app_length.
Qed.

Lemma find_del_index_spec_witness :
  exists item,
    [item_2; item_1] !! Z.to_nat (find_del_index pack_1 0 [item_2; item_1]) = Some item /\
    item_path item = pack_1 /\
    0 <= find_del_index pack_1 0 [item_2; item_1] < Z.of_nat (length [item_2; item_1]) /\
    pack_1 ∉ map item_path
               (take (Z.to_nat (find_del_index pack_1 0 [item_2; item_1])) [item_2; item_1]).
Proof.
  apply (proj2 (find_del_index_spec pack_1 [item_2; item_1])).
  right. left.
Defined.

(** ** The sort as a method *)

Lemma sort_by_hits_sorted_id l : StronglySorted hits_ge l -> sort_by_hits l = l.
Proof.
  induction 1 as [|x l Hs IH Hall]; simpl; [done|].
  rewrite IH. destruct l as [|y l]; simpl; [done|].
  apply Forall_cons in Hall as [Hy _]. unfold hits_ge in Hy.
  destruct (Z.ltb_spec (item_hits x) (item_hits y)); [lia|done].
Qed.

Section SortMethod.
Context `{SetIter}.

(** X1: on an object whose attribute is set, [_sort_entities] leaves
    the items of the list, each once, in descending order of their hit
    counters, the items of one hit counter in the order they had; the
    global hit counter, the stored modification time and the record of
    system calls are as they were. *)
Theorem sort_entities_sorted d w es :
  _entities (self w) = Some es ->
  exists es',
    _sort_entities d w = (inr tt, with_entities es' w) /\
    es' ≡ₚ es /\
    StronglySorted hits_ge es' /\
    (forall k, filter (fun i => item_hits i = k) es'
               = filter (fun i => item_hits i = k) es).
Proof.
  intros Hes. exists (sort_by_hits es). repeat split.
  - unfold _sort_entities, Body._sort_entities.
    by erewrite bind_inr by (by apply entities_attr_Some).
  - apply sort_by_hits_perm.
  - apply sort_by_hits_sorted.
  - intros k. apply sort_by_hits_stable.
Qed.

End SortMethod.

(** ** What an update leaves, exactly *)

Lemma filter_all {A} (P : A -> Prop) `{forall x, Decision (P x)} (l : list A) :
  Forall P l -> filter P l = l.
Proof.
  induction 1 as [|x l Hx _ IH]; [done|]. by rewrite filter_cons_True, IH.
Qed.

Lemma filter_on {A} (P Q : A -> Prop)
    `{forall x, Decision (P x)} `{forall x, Decision (Q x)} (l : list A) :
  (forall x, x ∈ l -> P x ↔ Q x) -> filter P l = filter Q l.
Proof.
  induction l as [|x l IH]; intros HPQ; [done|].
  rewrite !filter_cons, IH by (intros y Hy; apply HPQ; by right).
  destruct (decide (P x)) as [Hp|Hp], (decide (Q x)) as [Hq|Hq]; try done;
    exfalso; apply (HPQ x (list_elem_of_here _ _)) in Hp || apply Hp;
    try done; by apply (HPQ x (list_elem_of_here _ _)).
Qed.

(** With distinct paths, one pass of the removal loop drops the items at
    the path and no other. *)
Lemma remove_pack_filter es p :
  NoDup (map item_path es) ->
  remove_pack es p = filter (fun i => item_path i ≠ p) es.
Proof.
  intros Hnd. destruct (decide (p ∈ map item_path es)) as [Hp|Hp].
  - destruct (remove_pack_found _ _ Hp) as (pre & x & post & E & Hx & Hpre & _ & ->).
    subst es. rewrite map_app in Hnd. simpl in Hnd.
    apply NoDup_app in Hnd as (_ & _ & Hnd). apply NoDup_cons in Hnd as [Hpost _].
    rewrite Hx in Hpost.
    rewrite filter_app, filter_cons_False by (intros Hn; by apply Hn).
    rewrite !filter_all; [done| |].
    + apply Forall_forall. intros y Hy Hn. apply Hpost.
      apply list_elem_of_fmap. by exists y.
    + apply Forall_forall. intros y Hy Hn. apply Hpre.
      apply list_elem_of_fmap. by exists y.
  - unfold remove_pack. cbn zeta. rewrite find_del_index_missing by done.
    rewrite bool_decide_false by lia. rewrite filter_all; [done|].
    apply Forall_forall. intros y Hy Hn. apply Hp.
    apply list_elem_of_fmap. by exists y.
Qed.

Lemma foldl_remove_pack_filter dels es :
  NoDup (map item_path es) ->
  foldl remove_pack es dels = filter (fun i => item_path i ∉ dels) es.
Proof.
  revert es. induction dels as [|p dels IH]; intros es Hnd; simpl.
  - rewrite filter_all; [done|]. apply Forall_forall. intros y _. apply not_elem_of_nil.
  - rewrite IH; cycle 1.
    { eapply sublist_NoDup; [exact Hnd|apply sublist_paths, remove_pack_sublist]. }
    rewrite remove_pack_filter by done. rewrite list_filter_filter.
    apply filter_on. intros y _. rewrite not_elem_of_cons. tauto.
Qed.

Section Exact.
Context `{SetIter}.

Lemma set_iter_empty : set_iter ∅ = [].
Proof. apply Permutation_nil_r. rewrite set_iter_perm. by rewrite elements_empty. Qed.

Lemma reconciled_exact d es :
  NoDup (map item_path es) ->
  reconciled d es = sort_by_hits (filter (on_disk d) es ++ added_items d es).
Proof.
  intros Hnd. unfold reconciled. f_equal.
  fold (added_items d es).
  rewrite foldl_remove_pack_filter; cycle 1.
  { rewrite map_app. unfold added_items. rewrite item_path_added.
    apply NoDup_app. split; [done|]. split; [|apply NoDup_set_iter].
    intros p Hp Hq. by apply added_packs_new in Hq as [_ Hq]. }
  rewrite filter_app. f_equal.
  - apply filter_on. intros y Hy. unfold removed_packs, on_disk.
    rewrite elem_of_set_iter, elem_of_difference, !elem_of_list_to_set.
    assert (item_path y ∈ map item_path es)
      by (apply list_elem_of_fmap; by exists y).
    split; [|tauto]. intros Hn.
    destruct (decide (item_path y ∈ glob_result d)); [done|]. destruct Hn. done.
  - apply filter_all, Forall_forall. intros y Hy.
    unfold added_items in Hy. apply list_elem_of_fmap in Hy as (p & -> & Hp).
    apply added_packs_new in Hp as [Hp _].
    unfold removed_packs. rewrite elem_of_set_iter, elem_of_difference.
    rewrite !elem_of_list_to_set. intros [_ Hn]. by apply Hn.
Qed.

End Exact.

Section UpdateResults.
Context `{SetIter}.

Lemma after_update_entities d force w :
  gated d force w = false ->
  _entities (self (after (update_pack_entity_cache d force) w))
  = Some (reconciled d (current w)).
Proof. intros Hg. unfold after. by rewrite update_reconcile. Qed.

Lemma current_NoDup w : paths_distinct w -> NoDup (map item_path (current w)).
Proof.
  unfold paths_distinct, current. destruct (_entities (self w)); [done|constructor].
Qed.

(** X3: from a list of distinct paths, an update that is not skipped
    leaves exactly the items whose pack file the directory still lists,
    followed by one new item for each listed file that had none, the
    whole sorted by hit counter. *)
Theorem update_exact d force w :
  paths_distinct w ->
  gated d force w = false ->
  _entities (self (after (update_pack_entity_cache d force) w))
  = Some (sort_by_hits (filter (on_disk d) (current w) ++ added_items d (current w))).
Proof.
  intros Hw Hg. rewrite after_update_entities by done.
  by rewrite reconciled_exact by (by apply current_NoDup).
Qed.

Lemma reconciled_paths d es p :
  NoDup (map item_path es) ->
  p ∈ map item_path (reconciled d es) ↔ p ∈ glob_result d.
Proof.
  intros Hnd. rewrite reconciled_exact by done.
  rewrite sort_by_hits_perm, map_app, elem_of_app.
  unfold added_items. rewrite item_path_added. split.
  - intros [Hp|Hp].
    + apply list_elem_of_fmap in Hp as (y & -> & Hy).
      by apply list_elem_of_filter in Hy as [Hy _].
    + by apply added_packs_new in Hp as [Hp _].
  - intros Hp. destruct (decide (p ∈ map item_path es)) as [Hin|Hin].
    + left. apply list_elem_of_fmap in Hin as (y & -> & Hy).
      apply list_elem_of_fmap. exists y. split; [done|].
      by apply list_elem_of_filter.
    + right. unfold added_packs.
      rewrite elem_of_set_iter, elem_of_difference, !elem_of_list_to_set. done.
Qed.

(** X4: from a list of distinct paths, an update that is not skipped
    leaves the registered pack paths equal to the pack files the
    directory lists, each once. *)
Theorem update_paths_on_disk d force w :
  paths_distinct w ->
  gated d force w = false ->
  exists es',
    _entities (self (after (update_pack_entity_cache d force) w)) = Some es' /\
    map item_path es' ≡ₚ elements (list_to_set (glob_result d) : gset string).
Proof.
  intros Hw Hg. exists (reconciled d (current w)).
  split; [by apply after_update_entities|].
  pose proof (current_NoDup w Hw) as Hnd.
  apply NoDup_Permutation; [by apply reconciled_NoDup|apply NoDup_elements|].
  intros p. rewrite reconciled_paths by done.
  by rewrite elem_of_elements, elem_of_list_to_set.
Qed.

(** X5: an update returns True exactly when it was not skipped, that is
    when [force] is set or the modification time of the directory is
    beyond the stored one; it then stores that time, and otherwise keeps
    the stored one; the global hit counter is never touched. *)
Theorem update_result d force w :
  fst (update_pack_entity_cache d force w)
  = inr (force || bool_decide (_st_mtime (self w) < st_mtime d)) /\
  _st_mtime (self (after (update_pack_entity_cache d force) w))
  = (if force || bool_decide (_st_mtime (self w) < st_mtime d)
     then st_mtime d else _st_mtime (self w)) /\
  _hit_count (self (after (update_pack_entity_cache d force) w))
  = _hit_count (self w).
Proof.
  assert (Hg : gated d force w
               = negb (force || bool_decide (_st_mtime (self w) < st_mtime d))).
  { unfold gated. destruct force; simpl; [done|].
    repeat case_bool_decide; try done; lia. }
  unfold after. destruct (gated d force w) eqn:E.
  - rewrite update_skip by done. symmetry in Hg. apply negb_true_iff in Hg.
    by rewrite Hg.
  - rewrite update_reconcile by done. symmetry in Hg. apply negb_false_iff in Hg.
    by rewrite Hg.
Qed.

(** X6: after a non-skipped update the list is in descending order of
    the hit counters. *)
Theorem update_sorted d force w :
  gated d force w = false ->
  exists es',
    _entities (self (after (update_pack_entity_cache d force) w)) = Some es' /\
    StronglySorted hits_ge es'.
Proof.
  intros Hg. exists (reconciled d (current w)).
  split; [by apply after_update_entities|apply sort_by_hits_sorted].
Qed.

(** X7: every item of the list after a non-skipped update is an item of
    the list before it, or the item made for a listed pack file that no
    item had, its hit counter starting at the size of the pack. *)
Theorem update_items_origin d force w :
  gated d force w = false ->
  exists es',
    _entities (self (after (update_pack_entity_cache d force) w)) = Some es' /\
    forall item, item ∈ es' ->
      item ∈ current w \/
      (item_path item ∈ glob_result d /\
       (item_path item ∉ map item_path (current w)) /\
       item = new_item (PackEntity_init d (item_path item)) /\
       item_hits item = data_size (read_pack d (item_path item))).
Proof.
  intros Hg. exists (reconciled d (current w)).
  split; [by apply after_update_entities|].
  intros item Hin. unfold reconciled in Hin.
  apply (proj1 (sort_by_hits_elem_of _ _)) in Hin.
  apply (sublist_subseteq _ _ (foldl_remove_pack_sublist _ _)) in Hin.
  apply elem_of_app in Hin as [Hin|Hin]; [by left|right].
  apply list_elem_of_fmap in Hin as (p & -> & Hp).
  by apply added_packs_new in Hp as [Hp Hq].
Qed.

(** X8: from a list of distinct paths, a forced update made right after
    a forced update of the same directory changes nothing of the
    object, and returns True all the same. *)
Theorem update_twice d w :
  paths_distinct w ->
  let w1 := after (update_pack_entity_cache d true) w in
  self (after (update_pack_entity_cache d true) w1) = self w1 /\
  fst (update_pack_entity_cache d true w1) = inr true.
Proof.
  intros Hw w1.
  assert (Hg : forall w0, gated d true w0 = false) by done.
  assert (E1 : self w1 = mkPackedDB (Some (reconciled d (current w)))
                                    (_hit_count (self w)) (st_mtime d)).
  { unfold w1, after. by rewrite update_reconcile. }
  pose proof (current_NoDup w Hw) as Hnd.
  pose proof (reconciled_NoDup d _ Hnd) as Hnd1.
  assert (Ec : current w1 = reconciled d (current w))
    by (unfold current; by rewrite E1).
  assert (Eset : list_to_set (map item_path (reconciled d (current w)))
                 = (list_to_set (glob_result d) : gset string)).
  { apply set_eq. intros p. rewrite !elem_of_list_to_set.
    by apply reconciled_paths. }
  assert (Er : reconciled d (current w1) = reconciled d (current w)).
  { rewrite Ec. rewrite (reconciled_exact d (reconciled d (current w))) by done.
    unfold added_items, added_packs. rewrite Eset, difference_diag_L, set_iter_empty.
    simpl. rewrite app_nil_r, filter_all.
    - apply sort_by_hits_sorted_id, sort_by_hits_sorted.
    - apply Forall_forall. intros y Hy. unfold on_disk.
      apply (proj1 (reconciled_paths d (current w) _ Hnd)).
      apply list_elem_of_fmap. by exists y. }
  unfold after. rewrite update_reconcile by done. simpl.
  by rewrite Er, E1.
Qed.

End UpdateResults.

(** ** More on the lookups *)

Section LookupMore.
Context `{SetIter}.

(** X9: a lookup made when the global hit counter is a multiple of the
    sort interval returns, among the registered items that resolve the
    hash, one whose hit counter is the highest. *)
Theorem pack_info_presorted_max d sha b w e i :
  _hit_count (self w) `mod` _sort_interval = 0 ->
  to_bin_sha sha = inr b ->
  fst (_pack_info d sha w) = inr (e, i) ->
  exists item,
    item ∈ registered d w /\
    item_entity item = e /\
    item_sha_to_index item b = Some i /\
    forall x, x ∈ registered d w -> item_sha_to_index x b ≠ None ->
              item_hits x <= item_hits item.
Proof.
  intros Hmod Hb. rewrite pack_info_run, Hb. cbn zeta.
  unfold scan_order. rewrite bool_decide_true by done.
  destruct (pack_scan b (sort_by_hits (registered d w))) as [[r es']|] eqn:E;
    [|done].
  simpl. intros [= ->].
  apply pack_scan_Some in E as (pre & item & post & index & E & Hpre & Hi & [= -> ->] & _).
  pose proof (sort_by_hits_sorted (registered d w)) as Hs. rewrite E in Hs.
  apply StronglySorted_app_1_r, StronglySorted_cons in Hs as [Hpost _].
  exists item. repeat split; [|done|].
  - apply sort_by_hits_elem_of. rewrite E. apply elem_of_app. right. left.
  - intros x Hx Hr. apply sort_by_hits_elem_of in Hx. rewrite E in Hx.
    apply elem_of_app in Hx as [Hx|Hx].
    + rewrite Forall_forall in Hpre. by destruct Hr; apply Hpre.
    + apply elem_of_cons in Hx as [->|Hx]; [lia|].
      rewrite Forall_forall in Hpost. by apply Hpost.
Qed.

Lemma existsb_resolves_scan b n es :
  existsb (resolves b) es = true ↔ is_Some (pack_scan b (scan_order n es)).
Proof.
  rewrite <- pack_scan_resolves, !existsb_exists.
  split; intros (x & Hx & Hr); exists x; (split; [|done]);
    apply list_elem_of_In; apply list_elem_of_In in Hx.
  - by rewrite scan_order_perm.
  - by rewrite scan_order_perm in Hx.
Qed.

(** The answer of [has_object], over the list as the method reads it. *)
Lemma has_object_registered d sha w :
  fst (has_object d sha w)
  = match to_bin_sha sha with
    | inl e => inl e
    | inr b => inr (existsb (resolves b) (registered d w))
    end.
Proof.
  rewrite has_object_run, pack_info_run. cbn zeta.
  destruct (to_bin_sha sha) as [e|b] eqn:Hb.
  - assert (He : forall x, e ≠ BadObject x).
    { intros x ->. unfold to_bin_sha in Hb.
      destruct (String.length sha =? 20)%nat; [done|].
      by destruct (hex_to_bin sha). }
    destruct e; try done. by destruct (He sha0).
  - pose proof (existsb_resolves_scan b (_hit_count (self w)) (registered d w)) as Hx.
    destruct (pack_scan b (scan_order (_hit_count (self w)) (registered d w)))
      as [[r es']|]; simpl.
    + f_equal. symmetry. apply Hx. by eexists.
    + f_equal. symmetry. apply not_true_is_false. intros Ht.
      apply Hx in Ht as [? ?]. done.
Qed.

(** X10: on an object whose attribute is set, [has_object] never raises
    [BadObject]: it answers whether some item of the list resolves the
    normalised hash, and raises only what the normalisation of its
    argument raises. *)
Theorem has_object_result d sha w es :
  _entities (self w) = Some es ->
  (forall b, fst (has_object d sha w) ≠ inl (BadObject b)) /\
  fst (has_object d sha w)
  = match to_bin_sha sha with
    | inl e => inl e
    | inr b => inr (existsb (resolves b) es)
    end.
Proof.
  intros Hes. destruct (loaded_Some d _ _ Hes) as [Hr _].
  rewrite has_object_registered, Hr. split; [|done].
  intros b. unfold to_bin_sha.
  destruct (String.length sha =? 20)%nat; [done|].
  by destruct (hex_to_bin sha).
Qed.

Lemma info_run d sha w :
  info d sha w
  = match _pack_info d sha w with
    | (inr (entity, index), w') => (inr (PackEntity.info_at_index entity index), w')
    | (inl e, w') => (inl e, w')
    end.
Proof.
  unfold info, Body.info, bind. fold (_pack_info d sha).
  by destruct (_pack_info d sha w) as [[e|[entity index]] w'].
Qed.

Lemma stream_run d sha w :
  stream d sha w
  = match _pack_info d sha w with
    | (inr (entity, index), w') => (inr (PackEntity.stream_at_index entity index), w')
    | (inl e, w') => (inl e, w')
    end.
Proof.
  unfold stream, Body.stream, bind. fold (_pack_info d sha).
  by destruct (_pack_info d sha w) as [[e|[entity index]] w'].
Qed.

(** X11: [info] and [stream] succeed exactly when [has_object] answers
    True, raise [BadObject] exactly when it answers False, and leave the
    object in the state [has_object] leaves it in. *)
Theorem info_stream_has_object d sha w :
  after (info d sha) w = after (has_object d sha) w /\
  after (stream d sha) w = after (has_object d sha) w /\
  (fst (has_object d sha w) = inr true ↔ exists o, fst (info d sha w) = inr o) /\
  (fst (has_object d sha w) = inr true ↔ exists s, fst (stream d sha w) = inr s) /\
  (fst (has_object d sha w) = inr false
   ↔ exists b, fst (info d sha w) = inl (BadObject b)) /\
  (fst (has_object d sha w) = inr false
   ↔ exists b, fst (stream d sha w) = inl (BadObject b)).
Proof.
  unfold after. rewrite has_object_run, info_run, stream_run.
  destruct (_pack_info d sha w) as [[e|[entity index]] w']; simpl.
  - repeat split; try done; try (by intros [? ?]);
      destruct e; try done; try (by intros [? ?]); by eexists.
  - repeat split; try done; try (by intros [? ?]); by eexists.
Qed.

(** X12: once the attribute has been read, [entities] and [size] answer
    from the list alone: whatever the directory has become, they give
    the answer they gave and leave the object as it is. *)
Theorem entities_size_stable d d' w :
  entities d w = (inr (map item_entity (registered d w)), loaded d w) /\
  entities d' (loaded d w) = (inr (map item_entity (registered d w)), loaded d w) /\
  size d' (loaded d w) = (fst (size d w), loaded d w).
Proof.
  destruct (entities_attr_run d w) as (E & Hl & _).
  destruct (loaded_Some d' _ _ Hl) as [Hr' Hl'].
  assert (E' : entities_attr d' (loaded d w) = (inr (registered d w), loaded d w))
    by (by apply entities_attr_Some).
  repeat split.
  - unfold entities, Body.entities. by erewrite bind_inr by exact E.
  - unfold entities, Body.entities. by erewrite bind_inr by exact E'.
  - rewrite !size_run, Hr', Hl'. done.
Qed.

End LookupMore.

(** ** Enumerating and counting *)

Lemma total_objects_app es1 es2 :
  total_objects (es1 ++ es2) = total_objects es1 + total_objects es2.
Proof.
  unfold total_objects, index_sizes. induction es1 as [|x es1 IH]; simpl; lia.
Qed.

Lemma total_objects_perm es1 es2 : es1 ≡ₚ es2 -> total_objects es1 = total_objects es2.
Proof.
  unfold total_objects, index_sizes.
  induction 1; simpl; lia.
Qed.

Lemma item_shas_length item :
  length (item_shas item)
  = Z.to_nat (PackIndexFile.size (PackEntity.index (item_entity item))).
Proof. unfold item_shas, Body.xrange. cbn zeta. by rewrite !length_map, length_seq. Qed.

Lemma flat_map_item_shas_length es :
  Forall (fun item => 0 <= PackIndexFile.size (PackEntity.index (item_entity item))) es ->
  Z.of_nat (length (flat_map item_shas es)) = total_objects es.
Proof.
  unfold total_objects, index_sizes.
  induction 1 as [|x es Hx _ IH]; simpl; [done|].
  rewrite length_app, Nat2Z.inj_add, IH, item_shas_length. lia.
Qed.

Lemma flat_map_entities es :
  flat_map (fun entity =>
              let index := PackEntity.index entity in
              let sha_by_index := PackIndexFile.sha index in
              map sha_by_index (Body.xrange (PackIndexFile.size index)))
           (map item_entity es)
  = flat_map item_shas es.
Proof.
  induction es as [|x es IH]; [done|].
  cbn [map flat_map]. by rewrite <- IH.
Qed.

Section Enumerating.
Context `{SetIter}.

Lemma sha_iter_run d w :
  sha_iter d w = (inr (flat_map item_shas (registered d w)), loaded d w).
Proof.
  destruct (entities_attr_run d w) as (E & _).
  unfold sha_iter, Body.sha_iter, Body.entities. rewrite bind_bind.
  erewrite bind_inr by exact E. erewrite bind_inr by reflexivity.
  unfold ret. by rewrite <- flat_map_entities.
Qed.

Lemma size_total d w :
  registered d w ≠ [] -> fst (size d w) = inr (total_objects (registered d w)).
Proof. apply size_sum. Qed.

(** X13: with an item registered and no index reporting a negative
    count, [sha_iter] yields as many shas as [size] counts objects. *)
Theorem sha_iter_count d w :
  registered d w ≠ [] ->
  Forall (fun item => 0 <= PackIndexFile.size (PackEntity.index (item_entity item)))
         (registered d w) ->
  exists shas,
    fst (sha_iter d w) = inr shas /\
    fst (size d w) = inr (Z.of_nat (length shas)).
Proof.
  intros Hne Hpos. exists (flat_map item_shas (registered d w)).
  rewrite sha_iter_run, size_total by done. simpl.
  split; [done|]. by rewrite flat_map_item_shas_length.
Qed.

(** X14: where the lookup of each registered item finds the shas its
    index lists, and these are 20 bytes long, every sha that [sha_iter]
    yields is one [has_object] answers True for afterwards, whatever the
    directory has become. *)
Theorem sha_iter_found d d' w :
  (forall item i,
     item ∈ registered d w ->
     0 <= i < PackIndexFile.size (PackEntity.index (item_entity item)) ->
     String.length (PackIndexFile.sha (PackEntity.index (item_entity item)) i) = 20%nat /\
     item_sha_to_index item (PackIndexFile.sha (PackEntity.index (item_entity item)) i)
       ≠ None) ->
  exists shas,
    fst (sha_iter d w) = inr shas /\
    forall s, s ∈ shas ->
      fst (has_object d' s (after (sha_iter d) w)) = inr true.
Proof.
  intros Hidx. exists (flat_map item_shas (registered d w)).
  unfold after. rewrite sha_iter_run. simpl. split; [done|].
  intros s Hs. apply list_elem_of_In, in_flat_map in Hs as (item & Hitem & Hs).
  apply list_elem_of_In in Hitem. apply list_elem_of_In in Hs.
  unfold item_shas, Body.xrange in Hs. cbn zeta in Hs.
  apply list_elem_of_fmap in Hs as (i & -> & Hi).
  apply list_elem_of_fmap in Hi as (k & -> & Hk).
  apply elem_of_seq in Hk.
  destruct (Hidx item (Z.of_nat k) Hitem) as [Hlen Hres]; [lia|].
  destruct (entities_attr_run d w) as (_ & Hl & _).
  destruct (loaded_Some d' _ _ Hl) as [Hr' _].
  rewrite has_object_registered, (to_bin_sha_bin _ Hlen), Hr'. f_equal.
  apply existsb_exists. exists item. split; [by apply list_elem_of_In|].
  unfold resolves. by destruct (item_sha_to_index item _).
Qed.

End Enumerating.

(** ** The first read of the attribute *)

Section FirstRead.
Context `{SetIter}.

(** X15: the first read of the attribute does not force the update: made
    while the modification time of the directory is not beyond the
    stored one, it leaves the list empty whatever the directory lists,
    and no later read fills it. *)
Theorem first_read_skipped d w :
  _entities (self w) = None ->
  st_mtime d <= _st_mtime (self w) ->
  registered d w = [] /\
  _entities (self (loaded d w)) = Some [] /\
  forall d', registered d' (loaded d w) = [].
Proof.
  intros Hn Hle.
  assert (E : entities_attr d w
              = (inr [], mkWorld (mkPackedDB (Some []) (_hit_count (self w))
                                    (_st_mtime (self w)))
                                 (trace w ++ [sys_stat]))).
  { rewrite entities_attr_None by done. by rewrite bool_decide_true. }
  unfold registered, loaded. rewrite E. simpl. split; [done|]. split; [done|].
  intros d'. reflexivity.
Qed.

(** X16: made while the modification time of the directory is beyond the
    stored one, the first read of the attribute registers the pack files
    the directory lists, each once, every item being the one made for
    its file, in descending order of the pack sizes. *)
Theorem first_read_registers d w :
  _entities (self w) = None ->
  _st_mtime (self w) < st_mtime d ->
  map item_path (registered d w)
    ≡ₚ elements (list_to_set (glob_result d) : gset string) /\
  Forall (fun item => item = new_item (PackEntity_init d (item_path item)))
         (registered d w) /\
  StronglySorted hits_ge (registered d w).
Proof.
  intros Hn Hlt.
  assert (E : registered d w = reconciled d []).
  { unfold registered. rewrite entities_attr_None by done.
    by rewrite bool_decide_false by lia. }
  rewrite E. assert (Hnil : NoDup (map item_path [])) by constructor.
  repeat split.
  - apply NoDup_Permutation; [by apply reconciled_NoDup|apply NoDup_elements|].
    intros p. rewrite reconciled_paths by done.
    by rewrite elem_of_elements, elem_of_list_to_set.
  - apply Forall_forall. intros item Hin.
    rewrite reconciled_exact in Hin by done.
    apply (proj1 (sort_by_hits_elem_of _ _)) in Hin. simpl in Hin.
    unfold added_items in Hin. by apply list_elem_of_fmap in Hin as (p & -> & _).
  - apply sort_by_hits_sorted.
Qed.

End FirstRead.

(** ** An update, then a lookup or a count *)

Section UpdateThen.
Context `{SetIter}.

Lemma registered_after_update d d' force w :
  gated d force w = false ->
  registered d' (after (update_pack_entity_cache d force) w)
  = reconciled d (current w).
Proof.
  intros Hg. by destruct (loaded_Some d' _ _ (after_update_entities d force w Hg)).
Qed.

(** X17: from a list of distinct paths, after an update that is not
    skipped, [has_object] answers False for a hash that only items whose
    pack file the directory no longer lists resolved, when no newly
    listed pack holds it either. *)
Theorem update_then_miss d d' force w b :
  paths_distinct w ->
  gated d force w = false ->
  String.length b = 20%nat ->
  (forall item, item ∈ current w -> on_disk d item ->
                item_sha_to_index item b = None) ->
  (forall p, p ∈ glob_result d -> p ∉ map item_path (current w) ->
             PackIndexFile.sha_to_index (data_index (read_pack d p)) b = None) ->
  fst (has_object d' b (after (update_pack_entity_cache d force) w)) = inr false.
Proof.
  intros Hw Hg Hlen Hold Hnew.
  rewrite has_object_registered, (to_bin_sha_bin _ Hlen), registered_after_update by done.
  f_equal. apply not_true_is_false. intros Ht.
  apply existsb_exists in Ht as (item & Hin & Hr). apply list_elem_of_In in Hin.
  rewrite reconciled_exact in Hin by (by apply current_NoDup).
  apply (proj1 (sort_by_hits_elem_of _ _)) in Hin.
  unfold resolves in Hr. apply elem_of_app in Hin as [Hin|Hin].
  - apply list_elem_of_filter in Hin as [Hd Hin]. by rewrite (Hold item Hin Hd) in Hr.
  - unfold added_items in Hin. apply list_elem_of_fmap in Hin as (p & -> & Hp).
    apply added_packs_new in Hp as [Hp Hq]. simpl in Hr.
    by rewrite (Hnew p Hp Hq) in Hr.
Qed.

(** X18: after an update that is not skipped, [has_object] answers True
    for every 20-byte hash that the index of a newly listed pack file
    holds. *)
Theorem update_then_found d d' force w p b index :
  gated d force w = false ->
  String.length b = 20%nat ->
  p ∈ glob_result d ->
  p ∉ map item_path (current w) ->
  PackIndexFile.sha_to_index (data_index (read_pack d p)) b = Some index ->
  fst (has_object d' b (after (update_pack_entity_cache d force) w)) = inr true.
Proof.
  intros Hg Hlen Hp Hq Hidx.
  rewrite has_object_registered, (to_bin_sha_bin _ Hlen), registered_after_update by done.
  f_equal. apply existsb_exists. exists (new_item (PackEntity_init d p)).
  split; [|unfold resolves; simpl; by rewrite Hidx].
  apply list_elem_of_In. unfold reconciled.
  apply sort_by_hits_elem_of, foldl_remove_pack_other.
  - apply elem_of_app. right. apply list_elem_of_fmap. exists p. split; [done|].
    unfold added_packs.
    by rewrite elem_of_set_iter, elem_of_difference, !elem_of_list_to_set.
  - simpl. unfold removed_packs.
    rewrite elem_of_set_iter, elem_of_difference, !elem_of_list_to_set. tauto.
Qed.

(** X19: from a list of distinct paths, after an update that is not
    skipped and leaves an item, [size] is the sum of the object counts
    of the items whose pack file is still listed and of the newly listed
    packs. *)
Theorem size_after_update d d' force w :
  paths_distinct w ->
  gated d force w = false ->
  filter (on_disk d) (current w) ++ added_items d (current w) ≠ [] ->
  fst (size d' (after (update_pack_entity_cache d force) w))
  = inr (total_objects (filter (on_disk d) (current w))
         + total_objects (added_items d (current w))).
Proof.
  intros Hw Hg Hne.
  assert (E : registered d' (after (update_pack_entity_cache d force) w)
              = sort_by_hits (filter (on_disk d) (current w)
                              ++ added_items d (current w))).
  { rewrite registered_after_update by done.
    by rewrite reconciled_exact by (by apply current_NoDup). }
  rewrite size_total; rewrite E.
  - by rewrite (total_objects_perm _ _ (sort_by_hits_perm _)), total_objects_app.
  - intros Hnil. apply Hne. apply Permutation_nil_r.
    rewrite <- Hnil. symmetry. apply sort_by_hits_perm.
Qed.

End UpdateThen.

(** ** Counting the hits *)

Lemma total_hits_perm es1 es2 : es1 ≡ₚ es2 -> total_hits es1 = total_hits es2.
Proof. unfold total_hits. induction 1; simpl; lia. Qed.

Lemma total_hits_hit pre item post :
  total_hits (pre ++ hit item :: post) = total_hits (pre ++ item :: post) + 1.
Proof. unfold total_hits. induction pre as [|x pre IH]; simpl; lia. Qed.

Section Hits.
Context `{SetIter}.

(** X20: [has_object] counts a hit exactly when it answers True: the
    global hit counter and the sum of the hit counters of the registered
    items both go up by one then, and both stay as they are when it
    answers False. *)
Theorem has_object_counts d sha b w :
  to_bin_sha sha = inr b ->
  _hit_count (self (after (has_object d sha) w))
  = _hit_count (self w) + answered_true (fst (has_object d sha w)) /\
  total_hits (current (after (has_object d sha) w))
  = total_hits (registered d w) + answered_true (fst (has_object d sha w)).
Proof.
  intros Hb. unfold after. rewrite has_object_run, pack_info_run, Hb. cbn zeta.
  destruct (pack_scan b (scan_order (_hit_count (self w)) (registered d w)))
    as [[r es']|] eqn:E; simpl.
  - split; [done|]. unfold current. simpl.
    apply pack_scan_Some in E as (pre & item & post & index & E & _ & _ & _ & ->).
    rewrite total_hits_hit, <- E.
    by rewrite (total_hits_perm _ _ (scan_order_perm _ _)).
  - split; [lia|]. unfold current. simpl.
    rewrite (total_hits_perm _ _ (scan_order_perm _ _)). lia.
Qed.

End Hits.

(** ** The further results at work *)

Lemma world_two_distinct : paths_distinct world_two.
Proof. by apply (update_distinct dir_two false fresh_world). Qed.

Lemma current_two : current world_two = [item_2; item_1].
Proof. by vm_compute. Qed.

Lemma registered_two : registered dir_two fresh_world = [item_2; item_1].
Proof. by vm_compute. Qed.

Lemma current_one : current world_one = [item_1].
Proof. by vm_compute. Qed.

Lemma update_exact_witness :
  _entities (self (after (update_pack_entity_cache dir_one true) world_two))
  = Some (sort_by_hits (filter (on_disk dir_one) (current world_two)
                        ++ added_items dir_one (current world_two))).
Proof.
  apply (update_exact dir_one true world_two); [exact world_two_distinct|reflexivity].
Defined.

Lemma update_paths_on_disk_witness :
  exists es',
    _entities (self (after (update_pack_entity_cache dir_one true) world_two)) = Some es' /\
    map item_path es' ≡ₚ elements (list_to_set (glob_result dir_one) : gset string).
Proof.
  apply (update_paths_on_disk dir_one true world_two);
    [exact world_two_distinct|reflexivity].
Defined.

Lemma update_sorted_witness :
  exists es',
    _entities (self (after (update_pack_entity_cache dir_two false) fresh_world)) = Some es' /\
    StronglySorted hits_ge es'.
Proof. apply (update_sorted dir_two false fresh_world). reflexivity. Defined.

Lemma update_items_origin_witness :
  exists es',
    _entities (self (after (update_pack_entity_cache dir_two true) world_one)) = Some es' /\
    forall item, item ∈ es' ->
      item ∈ current world_one \/
      (item_path item ∈ glob_result dir_two /\
       (item_path item ∉ map item_path (current world_one)) /\
       item = new_item (PackEntity_init dir_two (item_path item)) /\
       item_hits item = data_size (read_pack dir_two (item_path item))).
Proof. apply (update_items_origin dir_two true world_one). reflexivity. Defined.

Lemma update_twice_witness :
  self (after (update_pack_entity_cache dir_one true)
          (after (update_pack_entity_cache dir_one true) world_two))
  = self (after (update_pack_entity_cache dir_one true) world_two) /\
  fst (update_pack_entity_cache dir_one true
         (after (update_pack_entity_cache dir_one true) world_two)) = inr true.
Proof. apply (update_twice dir_one world_two). exact world_two_distinct. Defined.

Lemma pack_info_presorted_max_witness :
  exists item,
    item ∈ registered dir_two fresh_world /\
    item_entity item = item_entity item_2 /\
    item_sha_to_index item sha_a = Some 0 /\
    forall x, x ∈ registered dir_two fresh_world ->
              item_sha_to_index x sha_a ≠ None ->
              item_hits x <= item_hits item.
Proof.
  apply (pack_info_presorted_max dir_two hex_a sha_a fresh_world (item_entity item_2) 0).
  - reflexivity.
  - reflexivity.
  - vm_compute. reflexivity.
Defined.

Lemma sha_iter_count_witness :
  exists shas,
    fst (sha_iter dir_two fresh_world) = inr shas /\
    fst (size dir_two fresh_world) = inr (Z.of_nat (length shas)).
Proof.
  apply (sha_iter_count dir_two fresh_world).
  - rewrite registered_two. discriminate.
  - rewrite registered_two. repeat constructor; vm_compute; discriminate.
Defined.

Lemma sha_iter_found_witness :
  exists shas,
    fst (sha_iter dir_two fresh_world) = inr shas /\
    forall s, s ∈ shas ->
      fst (has_object dir_empty s (after (sha_iter dir_two) fresh_world)) = inr true.
Proof.
  apply (sha_iter_found dir_two dir_empty fresh_world).
  rewrite registered_two. intros item i Hin Hi.
  assert (Hitem : item = item_2 \/ item = item_1).
  { apply elem_of_cons in Hin as [Hin|Hin]; [by left|].
    apply elem_of_cons in Hin as [Hin|Hin]; [by right|].
    by apply elem_of_nil in Hin. }
  destruct Hitem as [-> | ->]; change (0 <= i < 2) in Hi;
    (assert (Hi' : i = 0 \/ i = 1) by lia);
    destruct Hi' as [-> | ->]; vm_compute; (split; [reflexivity|discriminate]).
Defined.

Lemma first_read_skipped_witness :
  registered dir_epoch fresh_world = [] /\
  _entities (self (loaded dir_epoch fresh_world)) = Some [] /\
  forall d', registered d' (loaded dir_epoch fresh_world) = [].
Proof.
  apply (first_read_skipped dir_epoch fresh_world); [reflexivity|simpl; lia].
Defined.

Lemma first_read_registers_witness :
  map item_path (registered dir_two fresh_world)
    ≡ₚ elements (list_to_set (glob_result dir_two) : gset string) /\
  Forall (fun item => item = new_item (PackEntity_init dir_two (item_path item)))
         (registered dir_two fresh_world) /\
  StronglySorted hits_ge (registered dir_two fresh_world).
Proof.
  apply (first_read_registers dir_two fresh_world); [reflexivity|simpl; lia].
Defined.

Lemma update_then_miss_witness :
  fst (has_object dir_one sha_c (after (update_pack_entity_cache dir_one true) world_two))
  = inr false.
Proof.
  apply (update_then_miss dir_one dir_one true world_two sha_c).
  - exact world_two_distinct.
  - reflexivity.
  - reflexivity.
  - rewrite current_two. intros item Hin Hd.
    apply elem_of_cons in Hin as [-> | Hin].
    + exfalso. vm_compute in Hd. apply elem_of_cons in Hd as [Hd|Hd]; [discriminate|].
      by apply elem_of_nil in Hd.
    + apply elem_of_cons in Hin as [-> | Hin]; [vm_compute; reflexivity|].
      by apply elem_of_nil in Hin.
  - rewrite current_two. intros p Hp Hq. exfalso. apply Hq.
    apply elem_of_cons in Hp as [-> | Hp]; [right; left|].
    by apply elem_of_nil in Hp.
Defined.

Lemma update_then_found_witness :
  fst (has_object dir_two sha_c (after (update_pack_entity_cache dir_two true) world_one))
  = inr true.
Proof.
  apply (update_then_found dir_two dir_two true world_one pack_2 sha_c 1).
  - reflexivity.
  - reflexivity.
  - right. left.
  - rewrite current_one. intros Hp.
    apply elem_of_cons in Hp as [Hp|Hp]; [discriminate|]. by apply elem_of_nil in Hp.
  - vm_compute. reflexivity.
Defined.

Lemma size_after_update_witness :
  fst (size dir_one (after (update_pack_entity_cache dir_one true) world_two))
  = inr (total_objects (filter (on_disk dir_one) (current world_two))
         + total_objects (added_items dir_one (current world_two))).
Proof.
  apply (size_after_update dir_one dir_one true world_two).
  - exact world_two_distinct.
  - reflexivity.
  - rewrite current_two. vm_compute. discriminate.
Defined.

Lemma has_object_counts_witness :
  _hit_count (self (after (has_object dir_two hex_a) fresh_world))
  = _hit_count (self fresh_world)
    + answered_true (fst (has_object dir_two hex_a fresh_world)) /\
  total_hits (current (after (has_object dir_two hex_a) fresh_world))
  = total_hits (registered dir_two fresh_world)
    + answered_true (fst (has_object dir_two hex_a fresh_world)).
Proof. apply (has_object_counts dir_two hex_a sha_a fresh_world). reflexivity. Defined.

(** ** The system calls *)

Section SystemCalls.
Context `{SetIter}.

(** X21: an update that is not skipped stats the directory, lists it
    once, and then opens the listed pack files that no item has, each
    once, and no other file; the one further stat is that of
    [_set_cache_] when the update is what sets the attribute. *)
Theorem update_system_calls d force w :
  gated d force w = false ->
  exists opened,
    trace (after (update_pack_entity_cache d force) w)
    = trace w ++ [sys_stat; sys_glob] ++ lazy_stat w ++ map sys_open opened /\
    NoDup opened /\
    forall p, p ∈ opened ↔ p ∈ glob_result d /\ p ∉ map item_path (current w).
Proof.
  intros Hg. exists (added_packs d (current w)). split; [|split].
  - unfold after. rewrite update_reconcile by done. simpl.
    by rewrite <- !app_assoc.
  - apply NoDup_set_iter.
  - intros p. split; [apply added_packs_new|].
    intros [Hp Hq]. unfold added_packs.
    by rewrite elem_of_set_iter, elem_of_difference, !elem_of_list_to_set.
Qed.

(** X22: once the attribute is set, a lookup makes no system call and
    does not touch the stored modification time, hit or miss: the
    directory is not consulted, and the items keep their paths. *)
Theorem lookup_no_system_call d sha w es :
  _entities (self w) = Some es ->
  trace (after (has_object d sha) w) = trace w /\
  _st_mtime (self (after (has_object d sha) w)) = _st_mtime (self w) /\
  map item_path (current (after (has_object d sha) w)) ≡ₚ map item_path es /\
  after (_pack_info d sha) w = after (has_object d sha) w.
Proof.
  intros Hes. destruct (loaded_Some d _ _ Hes) as [Hr Hl].
  assert (Ha : after (_pack_info d sha) w = after (has_object d sha) w).
  { unfold after. rewrite has_object_run.
    by destruct (_pack_info d sha w) as [[[]|[]] w']. }
  rewrite <- Ha. unfold after. rewrite pack_info_run, Hr, Hl. cbn zeta.
  assert (Hc : current w = es) by (unfold current; by rewrite Hes).
  destruct (to_bin_sha sha) as [e|b]; simpl.
  - case_bool_decide; simpl; repeat split; try done.
    + unfold current. simpl. by rewrite scan_order_perm.
    + by rewrite Hc.
  - destruct (pack_scan b (scan_order (_hit_count (self w)) es)) as [[r es']|] eqn:E;
      simpl; repeat split; try done; unfold current; simpl.
    + rewrite (pack_scan_paths _ _ _ _ E). by rewrite scan_order_perm.
    + by rewrite scan_order_perm.
Qed.

End SystemCalls.

Lemma update_system_calls_witness :
  exists opened,
    trace (after (update_pack_entity_cache dir_two true) world_one)
    = trace world_one ++ [sys_stat; sys_glob] ++ lazy_stat world_one
        ++ map sys_open opened /\
    NoDup opened /\
    forall p, p ∈ opened ↔
              p ∈ glob_result dir_two /\ p ∉ map item_path (current world_one).
Proof. apply (update_system_calls dir_two true world_one). reflexivity. Defined.

Lemma lookup_no_system_call_witness :
  trace (after (has_object dir_empty sha_d) world_two) = trace world_two /\
  _st_mtime (self (after (has_object dir_empty sha_d) world_two))
  = _st_mtime (self world_two) /\
  map item_path (current (after (has_object dir_empty sha_d) world_two))
    ≡ₚ map item_path [item_2; item_1] /\
  after (_pack_info dir_empty sha_d) world_two
  = after (has_object dir_empty sha_d) world_two.
Proof.
  apply (lookup_no_system_call dir_empty sha_d world_two [item_2; item_1]).
  vm_compute. reflexivity.
Defined.

Lemma update_assertion_holds_witness :
  exists es item,
    for_each [pack_3] (removal_step dir_second) world_three
    = (inr tt, with_entities es world_three) /\
    find_del_index pack_1 0 es ≠ -1 /\
    es !! Z.to_nat (find_del_index pack_1 0 es) = Some item /\
    item_path item = pack_1 /\
    removal_step dir_second pack_1 (with_entities es world_three)
    = (inr tt,
       with_entities (delete (Z.to_nat (find_del_index pack_1 0 es)) es) world_three).
Proof.
  apply (proj2 (update_assertion_holds dir_second true world_three)
               [pack_3] pack_1 [] world_three).
  - vm_compute. reflexivity.
  - vm_compute. reflexivity.
Defined.

Lemma sort_entities_sorted_witness :
  exists es',
    _sort_entities dir_empty world_unsorted = (inr tt, with_entities es' world_unsorted) /\
    es' ≡ₚ [item_1; item_2] /\
    StronglySorted hits_ge es' /\
    (forall k, filter (fun i => item_hits i = k) es'
               = filter (fun i => item_hits i = k) [item_1; item_2]).
Proof.
  apply (sort_entities_sorted dir_empty world_unsorted [item_1; item_2]). reflexivity.
Defined.

Lemma has_object_result_witness :
  (forall b, fst (has_object dir_empty sha_c world_two) ≠ inl (BadObject b)) /\
  fst (has_object dir_empty sha_c world_two)
  = match to_bin_sha sha_c with
    | inl e => inl e
    | inr b => inr (existsb (resolves b) [item_2; item_1])
    end.
Proof.
  apply (has_object_result dir_empty sha_c world_two [item_2; item_1]).
  vm_compute. reflexivity.
Defined.
